(** * mkdocs-ezlinks-plugin: the link resolution and replacement engine

    A shallow embedding of [mkdocs_ezlinks_plugin/types.py] and
    [mkdocs_ezlinks_plugin/replacer.py], together with the parts of the
    Python standard library the engine calls ([posixpath], [urllib.parse.quote]).

    Python [str] values are modelled as [string]: sequences of bytes holding
    the UTF-8 encoding of the text.  Every separator the code looks at
    ('/', '.', '#', ' ') is ASCII, so splitting and searching on the bytes
    agrees with splitting and searching on the code points, and [quote]
    works on the UTF-8 bytes in Python too.  A [str] with a lone
    surrogate has no UTF-8 encoding and no counterpart here: [quote]
    raises [UnicodeEncodeError] on it, and nothing below speaks of such
    a [str].  [os.path] is [posixpath]. *)

From Stdlib Require Import String Ascii List Bool Arith Lia.
From stdpp Require Import gmap strings fin_maps.
Import ListNotations.

Local Open Scope list_scope.


(** ** Python string primitives *)

Module Str.

(** [bool(s)]: a string is truthy when it is not empty. *)
Definition truthy (s : string) : bool :=
  match s with
  | EmptyString => false
  | String _ _ => true
  end.

(** [c in s] for a one-character [c]. *)
Fixpoint contains (c : ascii) (s : string) : bool :=
  match s with
  | EmptyString => false
  | String d s' => Ascii.eqb d c || contains c s'
  end.

(** [s.startswith(c)] for a one-character [c]. *)
Definition startswith (c : ascii) (s : string) : bool :=
  match s with
  | String d _ => Ascii.eqb d c
  | EmptyString => false
  end.

(** [s.endswith(c)] for a one-character [c]. *)
Fixpoint endswith (c : ascii) (s : string) : bool :=
  match s with
  | EmptyString => false
  | String d EmptyString => Ascii.eqb d c
  | String _ s' => endswith c s'
  end.

(** [s.split(c)] for a one-character separator. *)
Fixpoint split (c : ascii) (s : string) : list string :=
  match s with
  | EmptyString => [EmptyString]
  | String d s' =>
      if Ascii.eqb d c then EmptyString :: split c s'
      else match split c s' with
           | h :: t => String d h :: t
           | [] => [String d EmptyString]
           end
  end.

(** [s.rfind(c) + 1]: one past the last occurrence of [c], 0 when absent. *)
Fixpoint rfind_succ (c : ascii) (s : string) : nat :=
  match s with
  | EmptyString => 0
  | String d s' =>
      match rfind_succ c s' with
      | 0 => if Ascii.eqb d c then 1 else 0
      | S k => S (S k)
      end
  end.

(** [s[:i]]. *)
Fixpoint take (i : nat) (s : string) : string :=
  match i, s with
  | S k, String d s' => String d (take k s')
  | _, _ => EmptyString
  end.

(** [s[i:]]. *)
Fixpoint drop (i : nat) (s : string) : string :=
  match i, s with
  | S k, String _ s' => drop k s'
  | _, _ => s
  end.

(** [s.lstrip(c)]. *)
Fixpoint lstrip (c : ascii) (s : string) : string :=
  match s with
  | String d s' => if Ascii.eqb d c then lstrip c s' else s
  | EmptyString => EmptyString
  end.

(** [s.rstrip(c)]. *)
Fixpoint rstrip (c : ascii) (s : string) : string :=
  match s with
  | EmptyString => EmptyString
  | String d s' =>
      match rstrip c s' with
      | EmptyString => if Ascii.eqb d c then EmptyString else String d EmptyString
      | r => String d r
      end
  end.

(** [s == c * len(s)]. *)
Fixpoint all_are (c : ascii) (s : string) : bool :=
  match s with
  | EmptyString => true
  | String d s' => Ascii.eqb d c && all_are c s'
  end.

(** [c * n]. *)
Fixpoint replicate (n : nat) (c : ascii) : string :=
  match n with
  | 0 => EmptyString
  | S k => String c (replicate k c)
  end.

(** [t.startswith(s)]. *)
Fixpoint has_prefix (s t : string) : bool :=
  match s, t with
  | EmptyString, _ => true
  | String c s', String d t' => Ascii.eqb c d && has_prefix s' t'
  | String _ _, EmptyString => false
  end.

(** [s in t]. *)
Fixpoint infix (s t : string) : bool :=
  has_prefix s t
  || match t with
     | EmptyString => false
     | String _ t' => infix s t'
     end.

End Str.

(** ** [posixpath] *)

Module PosixPath.

Definition sep : ascii := "/"%char.

(** [isabs]. *)
Definition isabs (s : string) : bool := Str.startswith sep s.

(** One round of the loop of [join]: [path] joined with the part [b]. *)
Definition join2 (path b : string) : string :=
  if Str.startswith sep b then b
  else if negb (Str.truthy path) || Str.endswith sep path then path +:+ b
  else path +:+ String sep b.

(** [join(a, *p)]. *)
Definition join (a : string) (p : list string) : string := fold_left join2 p a.

(** [dirname]. *)
Definition dirname (p : string) : string :=
  let i := Str.rfind_succ sep p in
  let head := Str.take i p in
  if Str.truthy head && negb (Str.all_are sep head) then Str.rstrip sep head
  else head.

(** [basename]. *)
Definition basename (p : string) : string :=
  Str.drop (Str.rfind_succ sep p) p.

(** [bool(l)] for a list. *)
Definition nonempty {A} (l : list A) : bool :=
  match l with [] => false | _ :: _ => true end.

(** [initial_slashes] of [normpath]: POSIX allows one or two initial
    slashes, three or more count as one. *)
Definition initial_slashes (path : string) : nat :=
  if Str.startswith sep path then
    if Str.has_prefix "//" path && negb (Str.has_prefix "///" path) then 2 else 1
  else 0.

(** The body of the loop of [normpath] over the components. *)
Definition norm_step (init : nat) (new_comps : list string) (comp : string)
  : list string :=
  if String.eqb comp "" || String.eqb comp "." then new_comps
  else if negb (String.eqb comp "..")
          || (Nat.eqb init 0 && negb (nonempty new_comps))
          || (nonempty new_comps && String.eqb (List.last new_comps "") "..")
       then new_comps ++ [comp]
       else List.removelast new_comps.

(** [normpath]. *)
Definition normpath (path : string) : string :=
  if negb (Str.truthy path) then "."
  else
    let init := initial_slashes path in
    let comps := fold_left (norm_step init) (Str.split sep path) [] in
    let joined := String.concat "/" comps in
    let out := Str.replicate init sep +:+ joined in
    if Str.truthy out then out else ".".

(** [abspath]; [cwd] is what [os.getcwd()] returns. *)
Definition abspath (cwd path : string) : string :=
  normpath (if isabs path then path else join cwd [path]).

(** [len(commonprefix([l1, l2]))] for two lists of components: the
    prefix shared by the smaller and the larger list is the prefix shared
    by both. *)
Fixpoint common_prefix_len (l1 l2 : list string) : nat :=
  match l1, l2 with
  | x :: l1', y :: l2' => if String.eqb x y then S (common_prefix_len l1' l2') else 0
  | _, _ => 0
  end.

(** [[x for x in abspath(p).split(sep) if x]]. *)
Definition components (cwd p : string) : list string :=
  List.filter Str.truthy (Str.split sep (abspath cwd p)).

(** [relpath(path, start)]; [None] is the [ValueError] raised for an
    empty [path]. *)
Definition relpath (cwd path start : string) : option string :=
  if negb (Str.truthy path) then None
  else
    let start_list := components cwd start in
    let path_list := components cwd path in
    let i := common_prefix_len start_list path_list in
    let rel_list :=
      List.repeat ".." (List.length start_list - i) ++ List.skipn i path_list in
    match rel_list with
    | [] => Some "."
    | a :: p => Some (join a p)
    end.

(** A last component that names a file: not empty, not [.], not [..]. *)
Definition names_a_file (name : string) : bool :=
  negb (String.eqb name "") && negb (String.eqb name ".")
  && negb (String.eqb name "..").

(** The words of the specification: a path carries a file extension
    when its last component, the dots it starts with aside, has a dot in
    it, which is when [splitext(p)[1]] is not empty. *)
Definition carries_extension (p : string) : bool :=
  Str.contains "." (Str.lstrip "." (basename p)).

End PosixPath.

(** ** [urllib.parse.quote] *)

Module UrlParse.

(** [_ALWAYS_SAFE]: the unreserved characters. *)
Definition always_safe (c : ascii) : bool :=
  let n := nat_of_ascii c in
  (Nat.leb 65 n && Nat.leb n 90)
  || (Nat.leb 97 n && Nat.leb n 122)
  || (Nat.leb 48 n && Nat.leb n 57)
  || Ascii.eqb c "_" || Ascii.eqb c "." || Ascii.eqb c "-" || Ascii.eqb c "~".

(** [safe='/'], the default of [quote]. *)
Definition safe (c : ascii) : bool := always_safe c || Ascii.eqb c "/".

Definition hex_digit (n : nat) : ascii :=
  match n with
  | 0 => "0" | 1 => "1" | 2 => "2" | 3 => "3" | 4 => "4" | 5 => "5"
  | 6 => "6" | 7 => "7" | 8 => "8" | 9 => "9" | 10 => "A" | 11 => "B"
  | 12 => "C" | 13 => "D" | 14 => "E" | _ => "F"
  end%char.

(** [_Quoter.__missing__]: a safe byte stands for itself, any other is
    written ['%{:02X}'.format(b)]. *)
Definition quote_byte (c : ascii) : string :=
  if safe c then String c EmptyString
  else
    let n := nat_of_ascii c in
    String "%" (String (hex_digit (n / 16)) (String (hex_digit (n mod 16)) EmptyString)).

(** [quote(string)], on the UTF-8 bytes of [string]: the bytes
    [string.encode('utf-8', 'strict')] gives, each through
    [quote_byte].  The [UnicodeEncodeError] of the encoding step, for a
    [str] with a lone surrogate, is outside the strings modelled here. *)
Fixpoint quote (s : string) : string :=
  match s with
  | EmptyString => EmptyString
  | String c s' => quote_byte c +:+ quote s'
  end.

End UrlParse.

(** ** [types.py] *)

(** [class Link]. *)
Record Link : Type := mkLink {
  image : bool;
  text : string;
  target : string;
  anchor : string;
  title : string
}.

(** [link.target = t]. *)
Definition set_target (link : Link) (t : string) : Link :=
  {| image := image link; text := text link; target := t;
     anchor := anchor link; title := title link |}.

(** The double quote character of the title. *)
Definition dquote : string := String (ascii_of_nat 34) EmptyString.

(** [Link.render]. *)
Definition render (self : Link) (title_as_text : bool) : string :=
  let img := if image self then "!" else "" in
  let anchor_s := if Str.truthy (anchor self) then "#" +:+ anchor self else "" in
  let title_s := if Str.truthy (title self) then " " +:+ dquote +:+ title self +:+ dquote else "" in
  if title_as_text && Str.truthy (title self)
  then img +:+ "[" +:+ title self +:+ "](" +:+ target self +:+ anchor_s +:+ ")"
  else img +:+ "[" +:+ text self +:+ "](" +:+ target self +:+ anchor_s +:+ title_s +:+ ")".

(** ** Exceptions and the logger *)

(** The exceptions the engine can meet: its own [BrokenLink], and the
    [TypeError] and [ValueError] of the built-ins it calls. *)
Inductive exn : Type :=
| BrokenLink (msg : string)
| TypeError (msg : string)
| ValueError (msg : string).

Inductive level : Type := DEBUG | INFO | WARNING | ERROR.

(** One call of a method of the logger. *)
Definition log_record : Type := level * string.

Inductive outcome (A : Type) : Type :=
| Ok (a : A)
| Raise (e : exn).
Arguments Ok {A} a.
Arguments Raise {A} e.

(** A computation that returns or raises, and writes to the logger. *)
Definition M (A : Type) : Type := outcome A * list log_record.

Definition ret {A} (a : A) : M A := (Ok a, []).
Definition lift {A} (o : outcome A) : M A := (o, []).

Definition bind {A B} (m : M A) (f : A -> M B) : M B :=
  match m with
  | (Ok a, l) => let (r, l') := f a in (r, l ++ l')
  | (Raise e, l) => (Raise e, l)
  end.

Notation "'let*' x ':=' m 'in' k" := (bind m (fun x => k))
  (at level 10, x name, m at level 100, k at level 200).

(** [self.logger.debug(msg)]. *)
Definition logger_debug (msg : string) : M unit := (Ok tt, [(DEBUG, msg)]).

(** [try: m  except BrokenLink as ex: handler(str(ex))]: only a
    [BrokenLink] is caught, any other exception goes on to the caller. *)
Definition try_except_BrokenLink {A} (m : M A) (handler : string -> M A) : M A :=
  match m with
  | (Raise (BrokenLink msg), l) => let (r, l') := handler msg in (r, l ++ l')
  | other => other
  end.

(** The same sequencing for a computation that does not log. *)
Definition obind {A B} (o : outcome A) (f : A -> outcome B) : outcome B :=
  match o with
  | Ok a => f a
  | Raise e => Raise e
  end.

Notation "'let?' x ':=' o 'in' k" := (obind o (fun x => k))
  (at level 10, x name, o at level 100, k at level 200).

(** ** The collaborators of the engine *)

(** A [re.Match]: [group0] is [match.group(0)], [groupdict] is
    [match.groupdict()], a group that took no part in the match being
    [None]. *)
Record Match : Type := mkMatch {
  group0 : string;
  groupdict : list (string * option string)
}.


(** [BaseLinkScanner]: [pattern()] is used by [compile] alone, and is
    part of the compiled pattern here. *)
Record Scanner : Type := mkScanner {
  sc_match : Match -> bool;
  extract : Match -> option Link
}.

(** [FileMapper]: [search(from_file, file_path)] gives a path, or a falsy
    value, [None] or the empty string, when there is none. *)
Record FileMapper : Type := mkFileMapper {
  search : string -> string -> option string
}.

(** What a scan of a text by a compiled pattern yields, from left to
    right: the matches, and the text between them. *)
Inductive piece : Type :=
| Gap (s : string)
| Hit (m : Match).

(** The text a list of pieces covers. *)
Fixpoint covered (ps : list piece) : string :=
  match ps with
  | [] => EmptyString
  | Gap s :: rest => s +:+ covered rest
  | Hit m :: rest => group0 m +:+ covered rest
  end.

(** A compiled pattern, as the scan it performs on a text: the matches
    it finds do not overlap, and with the text between them they make up
    the text that was scanned. *)
Record Pattern : Type := mkPattern {
  scan : string -> list piece;
  scan_covers : forall text, covered (scan text) = text
}.

(** [re.finditer(pattern, text)]. *)
Fixpoint hits (ps : list piece) : list Match :=
  match ps with
  | [] => []
  | Gap _ :: rest => hits rest
  | Hit m :: rest => m :: hits rest
  end.

Definition re_finditer (pattern : Pattern) (text : string) : list Match :=
  hits (scan pattern text).

(** [re.sub(pattern, repl, text)] for a function [repl]: every match is
    replaced by what [repl] returns for it, the text between the matches
    is kept. *)
Fixpoint sub_pieces (repl : Match -> M string) (ps : list piece) : M string :=
  match ps with
  | [] => ret EmptyString
  | Gap s :: rest =>
      let* out := sub_pieces repl rest in ret (s +:+ out)
  | Hit m :: rest =>
      let* r := repl m in
      let* out := sub_pieces repl rest in ret (r +:+ out)
  end.

Definition re_sub (pattern : Pattern) (repl : Match -> M string) (text : string)
  : M string :=
  sub_pieces repl (scan pattern text).

(** ** [replacer.py] *)

(** [class EzLinksReplacer], after [compile()]. *)
Record EzLinksReplacer : Type := mkReplacer {
  root : string;
  file_map : FileMapper;
  use_directory_urls : bool;
  scanners : list Scanner;
  target_scanners : list Scanner;
  regex : Pattern;
  target_regex : Pattern
}.

Section Engine.

(** [os.getcwd()]. *)
Variable cwd : string.
Variable self : EzLinksReplacer.
(** [self.path], set by [replace]. *)
Variable path : string.

(** [os.path.dirname(os.path.join(self.root, self.path))]. *)
Definition abs_from : string :=
  PosixPath.dirname (PosixPath.join (root self) [path]).

(** [search_result + ".md" if "." not in search_result else search_result];
    [in] raises a [TypeError] on [None]. *)
Definition add_md (search_result : option string) : outcome string :=
  match search_result with
  | None => Raise (TypeError "argument of type 'NoneType' is not iterable")
  | Some s => Ok (if negb (Str.contains "." s) then s +:+ ".md" else s)
  end.

(** The search through the file map, lines 92-98 of [_build_target_map]
    and, word for word, lines 131-137 of [_do_replace]. *)
Definition search_file_map (link_target : string) : outcome string :=
  let search_result := search (file_map self) path link_target in
  let? search_result :=
    (if negb (use_directory_urls self)
     then let? s := add_md search_result in Ok (Some s)
     else Ok search_result) in
  match search_result with
  | Some (String c r) => Ok (String c r)
  | _ => Raise (BrokenLink ("'" +:+ link_target +:+ "' not found."))
  end.

(** [os.path.relpath(p, abs_from)]. *)
Definition relpath_from (p : string) : outcome string :=
  match PosixPath.relpath cwd p abs_from with
  | Some r => Ok r
  | None => Raise (ValueError "no path specified")
  end.

(** Lines 115-140 of [_do_replace]: what happens once [scanner] has
    claimed the match. *)
Definition replace_claimed (scanner : Scanner) (m : Match)
    (target_map : gmap string Link) : outcome string :=
  match extract scanner m with
  | None =>
      Raise (BrokenLink ("Could not extract link from '" +:+ group0 m +:+ "'"))
  | Some link =>
      let finish (link : Link) : outcome string :=
        let? rel := relpath_from (target link) in
        Ok (render (set_target link (UrlParse.quote rel)) false) in
      if negb (Str.truthy (target link)) then
        if Str.truthy (anchor link)
        then finish (set_target link (PosixPath.join (root self) [path]))
        else Raise (BrokenLink ("No target for link '" +:+ group0 m +:+ "'"))
      else
        match target_map !! target link with
        | Some definition => Ok (render definition true)
        | None =>
            let? search_result := search_file_map (target link) in
            finish (set_target link search_result)
        end
  end.

(** The loop of [_do_replace] over the scanners; [None] when it ends
    without a [return]. *)
Fixpoint do_replace_scan (scs : list Scanner) (m : Match)
    (target_map : gmap string Link) : outcome (option string) :=
  match scs with
  | [] => Ok None
  | scanner :: rest =>
      if sc_match scanner m
      then let? out := replace_claimed scanner m target_map in Ok (Some out)
      else do_replace_scan rest m target_map
  end.

(** [_do_replace]. *)
Definition do_replace (m : Match) (target_map : gmap string Link) : M string :=
  let* returned :=
    try_except_BrokenLink
      (lift (do_replace_scan (scanners self) m target_map))
      (fun ex => let* _ := logger_debug ("[EzLinks] " +:+ ex) in ret None) in
  match returned with
  | Some out => ret out
  | None => ret (group0 m)
  end.

(** Lines 78-100 of [_build_target_map]: the link a scanner that has
    claimed the match defines. *)
Definition define_claimed (scanner : Scanner) (m : Match) : outcome Link :=
  match extract scanner m with
  | None =>
      Raise (BrokenLink ("Could not extract link from '" +:+ group0 m +:+ "'"))
  | Some link =>
      let? link :=
        (if negb (Str.truthy (target link)) then
           if Str.truthy (anchor link)
           then Ok (set_target link (PosixPath.join (root self) [path]))
           else Raise (BrokenLink ("No target for link '" +:+ group0 m +:+ "'"))
         else
           let? search_result := search_file_map (target link) in
           Ok (set_target link search_result)) in
      let? rel := relpath_from (target link) in
      Ok (set_target link rel)
  end.

(** The loop of [_build_target_map] over the target scanners.  The
    dictionary is updated in place, so what was stored before an
    exception stays stored: the map is returned beside the outcome. *)
Fixpoint build_target_scan (scs : list Scanner) (m : Match)
    (target_map : gmap string Link) : gmap string Link * outcome unit :=
  match scs with
  | [] => (target_map, Ok tt)
  | scanner :: rest =>
      if sc_match scanner m then
        match define_claimed scanner m with
        | Ok link => build_target_scan rest m (<[text link := link]> target_map)
        | Raise e => (target_map, Raise e)
        end
      else build_target_scan rest m target_map
  end.

(** The loop of [_build_target_map] over the matches. *)
Fixpoint build_target_loop (ms : list Match) (target_map : gmap string Link)
  : M (gmap string Link) :=
  match ms with
  | [] => ret target_map
  | m :: rest =>
      let (target_map', r) := build_target_scan (target_scanners self) m target_map in
      let* _ :=
        try_except_BrokenLink (lift r)
          (fun ex => logger_debug ("[EzLinks] " +:+ ex)) in
      build_target_loop rest target_map'
  end.

(** [_build_target_map]. *)
Definition build_target_map (markdown : string) : M (gmap string Link) :=
  build_target_loop (re_finditer (target_regex self) markdown) ∅.

(** [replace]. *)
Definition replace (markdown : string) : M string :=
  let* target_map := build_target_map markdown in
  re_sub (regex self) (fun m => do_replace m target_map) markdown.

End Engine.

(** [add_scanner]: the scanner goes to the end of [self.scanners]; the
    compiled patterns stay as they are until [compile] runs again. *)
Definition add_scanner (self : EzLinksReplacer) (scanner : Scanner)
  : EzLinksReplacer :=
  {| root := root self;
     file_map := file_map self;
     use_directory_urls := use_directory_urls self;
     scanners := scanners self ++ [scanner];
     target_scanners := target_scanners self;
     regex := regex self;
     target_regex := target_regex self |}.

(** [add_target_scanner]. *)
Definition add_target_scanner (self : EzLinksReplacer) (scanner : Scanner)
  : EzLinksReplacer :=
  {| root := root self;
     file_map := file_map self;
     use_directory_urls := use_directory_urls self;
     scanners := scanners self;
     target_scanners := target_scanners self ++ [scanner];
     regex := regex self;
     target_regex := target_regex self |}.

(** ** The notions the properties are stated with *)

(** The scanner the loops ask first that claims the match. *)
Definition first_claim (scs : list Scanner) (m : Match) : option Scanner :=
  List.find (fun scanner => sc_match scanner m) scs.


(** A target map in which every link is stored under its own text, as
    [target_map[link.text] = link] stores it. *)
Definition keyed_by_text (tm : gmap string Link) : Prop :=
  forall k d, tm !! k = Some d -> text d = k.

(** An occurrence the target map does not serve, and the path lines
    121-137 of [_do_replace] leave in [link.target] for it: the document
    itself for an empty target with an anchor, the result of the search
    through the file map for a target that is no key of the map. *)
Definition resolves (self : EzLinksReplacer) (path : string)
    (tm : gmap string Link) (link : Link) (resolved : string) : Prop :=
  (Str.truthy (target link) = false
   /\ Str.truthy (anchor link) = true
   /\ resolved = PosixPath.join (root self) [path])
  \/ (Str.truthy (target link) = true
      /\ tm !! target link = None
      /\ search_file_map self path (target link) = Ok resolved).

(** A computation that does not let a [BrokenLink] out. *)
Definition keeps_BrokenLink_in {A} (m : M A) : Prop :=
  forall msg, fst m <> Raise (BrokenLink msg).

(** [re.sub] piece by piece. *)
Definition prepend (s : string) (o : outcome string) : outcome string :=
  match o with
  | Ok out => Ok (s +:+ out)
  | Raise e => Raise e
  end.

(** What [normpath] keeps of an absolute path: its components. *)
Definition kept (s : string) : list string :=
  fold_left (PosixPath.norm_step 1) (Str.split PosixPath.sep s) [].

(** A component of a path: a non-empty string without a separator. *)
Definition component (comp : string) : Prop :=
  Str.truthy comp = true /\ Str.contains PosixPath.sep comp = false.

(** A record the engine writes to the logger: at debug severity, its
    message after the tag of the plugin. *)
Definition ezlinks_debug_record (r : log_record) : Prop :=
  fst r = DEBUG /\ Str.has_prefix "[EzLinks] " (snd r) = true.

(** A string whose characters all satisfy [p]. *)
Fixpoint all_chars (p : ascii -> bool) (s : string) : bool :=
  match s with
  | EmptyString => true
  | String c s' => p c && all_chars p s'
  end.

(** What [re.sub] puts in the output for a piece of the scan: the text
    between two matches as it is, and for a match what [_do_replace]
    returns for it. *)
Definition emitted (cwd : string) (self : EzLinksReplacer) (path : string)
    (tm : gmap string Link) (p : piece) (out : string) : Prop :=
  match p with
  | Gap s => out = s
  | Hit m => fst (do_replace cwd self path m tm) = Ok out
  end.

(** A relative path that is not empty. *)
Definition relative_path (p : string) : Prop :=
  Str.truthy p = true /\ Str.startswith PosixPath.sep p = false.

(** Where an entry of the target map comes from: a match among [ms]
    that a scanner among [scs] claimed and defined it for. *)
Definition defined_by (cwd : string) (self : EzLinksReplacer) (path : string)
    (ms : list Match) (scs : list Scanner) (d : Link) : Prop :=
  exists m scanner,
    In m ms /\ In scanner scs /\ sc_match scanner m = true
    /\ define_claimed cwd self path scanner m = Ok d.

(** ** The equations of [+:+] *)

(** The two equations of [+:+], which [simpl] is told not to unfold. *)
Lemma append_empty_l (t : string) : "" +:+ t = t.
Proof. reflexivity. Qed.

Lemma append_cons (c : ascii) (s t : string) : String c s +:+ t = String c (s +:+ t).
Proof. reflexivity. Qed.

Lemma append_empty_r (s : string) : s +:+ "" = s.
Proof.
  induction s as [|c s IH]; [reflexivity|].
  now rewrite append_cons, IH.
Qed.

Lemma append_assoc (s t u : string) : (s +:+ t) +:+ u = s +:+ t +:+ u.
Proof.
  induction s as [|c s IH]; [reflexivity|].
  now rewrite !append_cons, IH.
Qed.

(** ** [re]: the patterns [compile] builds, and how they are searched

    A pattern is the tree of the regular expression, and matching it at a
    position gives the ways it can match there, in the order the
    backtracking engine of [re] tries them.  The constructors are the
    ones the pattern of [compile] is made of, and what the patterns of
    the scanners need beside them. *)

Module Re.

Inductive regex : Type :=
| Empty
| Class (p : ascii -> bool)
| Seq (r1 r2 : regex)
| Alt (r1 r2 : regex)
| Star (greedy : bool) (p : ascii -> bool)
| EndOfLine
| Group (name : string) (r : regex).

(** The named groups that took part in a match, the last one first. *)
Definition captures : Type := list (string * string).

(** [p*?] at [s]: what is left of [s], fewest characters taken first. *)
Fixpoint star_lazy (p : ascii -> bool) (s : string) : list string :=
  s :: match s with
       | String c s' => if p c then star_lazy p s' else []
       | EmptyString => []
       end.

(** [p*] at [s]: what is left of [s], most characters taken first. *)
Fixpoint star_greedy (p : ascii -> bool) (s : string) : list string :=
  match s with
  | String c s' => if p c then star_greedy p s' ++ [s] else [s]
  | EmptyString => [s]
  end.

(** The line feed. *)
Definition newline : ascii := ascii_of_nat 10.

(** The ways [r] matches at the start of [s]: for each, what is left of
    [s] and the groups so far.  [EndOfLine] is [$] under [re.MULTILINE]:
    the end of the text, or the place before a line feed. *)
Fixpoint run (r : regex) (s : string) (caps : captures)
  : list (string * captures) :=
  match r with
  | Empty => [(s, caps)]
  | Class p =>
      match s with
      | String c s' => if p c then [(s', caps)] else []
      | EmptyString => []
      end
  | Seq r1 r2 => List.flat_map (fun way => run r2 (fst way) (snd way)) (run r1 s caps)
  | Alt r1 r2 => run r1 s caps ++ run r2 s caps
  | Star greedy p =>
      map (fun s' => (s', caps)) (if greedy then star_greedy p s else star_lazy p s)
  | EndOfLine =>
      match s with
      | EmptyString => [(s, caps)]
      | String c _ => if Ascii.eqb c newline then [(s, caps)] else []
      end
  | Group name r1 =>
      map (fun way =>
             (fst way,
              (name, Str.take (String.length s - String.length (fst way)) s) :: snd way))
        (run r1 s caps)
  end.

(** The names of the groups of a pattern, in the order of the pattern. *)
Fixpoint names (r : regex) : list string :=
  match r with
  | Seq r1 r2 | Alt r1 r2 => names r1 ++ names r2
  | Group name r1 => name :: names r1
  | Empty | Class _ | Star _ _ | EndOfLine => []
  end.

(** The value of a group: what it matched last, [None] when it took no
    part. *)
Fixpoint captured (name : string) (caps : captures) : option string :=
  match caps with
  | [] => None
  | (k, v) :: rest => if String.eqb k name then Some v else captured name rest
  end.

(** [match.groupdict()]. *)
Definition groupdict_of (r : regex) (caps : captures) : list (string * option string) :=
  map (fun name => (name, captured name caps)) (names r).

(** A way the search may take: any, unless the search has to advance
    (the match before was empty and ended here), when it has to take
    something. *)
Definition acceptable (must_advance : bool) (s : string) (way : string * captures) : bool :=
  negb must_advance || (String.length (fst way) <? String.length s).

(** The match of [r] at the start of [s], if there is one: its length
    and the [Match] object. *)
Definition match_at (r : regex) (must_advance : bool) (s : string) : option (nat * Match) :=
  match List.find (acceptable must_advance s) (run r s []) with
  | Some way =>
      let n := String.length s - String.length (fst way) in
      Some (n, {| group0 := Str.take n s; groupdict := groupdict_of r (snd way) |})
  | None => None
  end.

(** A gap between two matches, when there is text in it. *)
Definition gap_then (gap : string) (ps : list piece) : list piece :=
  if Str.truthy gap then Gap gap :: ps else ps.

(** The search [re.finditer] and [re.sub] make through a text, from left
    to right: at each place the first acceptable way to match, then on
    from the end of the match; a place without a match goes to the gap.
    After an empty match the search has to advance. *)
Fixpoint scan_from (r : regex) (fuel : nat) (gap rest : string) (must_advance : bool)
  : list piece :=
  match fuel with
  | 0 => gap_then (gap +:+ rest) []
  | S fuel' =>
      match match_at r must_advance rest with
      | Some (n, m) =>
          gap_then gap (Hit m :: scan_from r fuel' "" (Str.drop n rest) (Nat.eqb n 0))
      | None =>
          match rest with
          | EmptyString => gap_then gap []
          | String c rest' => scan_from r fuel' (gap +:+ String c "") rest' false
          end
      end
  end.

(** Two rounds for each place of the text are enough: one for an empty
    match, one to advance. *)
Definition scan_text (r : regex) (text : string) : list piece :=
  scan_from r (2 * String.length text + 2) "" text false.

Lemma take_then_drop (n : nat) (s : string) : Str.take n s +:+ Str.drop n s = s.
Proof.
  revert s. induction n as [|n IH]; intros [|c s]; try reflexivity.
  cbn [Str.take Str.drop]. now rewrite append_cons, IH.
Qed.

Lemma match_at_group0 r must_advance s n m :
  match_at r must_advance s = Some (n, m) -> group0 m = Str.take n s.
Proof.
  unfold match_at. destruct (find _ _) as [way|]; [|discriminate].
  now intros [= <- <-].
Qed.

Lemma covered_gap_then gap ps : covered (gap_then gap ps) = gap +:+ covered ps.
Proof. unfold gap_then. now destruct gap. Qed.

Lemma scan_from_covers r fuel gap rest must_advance :
  covered (scan_from r fuel gap rest must_advance) = gap +:+ rest.
Proof.
  revert gap rest must_advance.
  induction fuel as [|fuel IH]; intros gap rest must_advance; cbn [scan_from].
  - rewrite covered_gap_then. cbn. apply append_empty_r.
  - destruct (match_at r must_advance rest) as [[n m]|] eqn:Hm.
    + rewrite covered_gap_then. cbn [covered].
      rewrite IH, (match_at_group0 _ _ _ _ _ Hm), append_empty_l.
      now rewrite take_then_drop.
    + destruct rest as [|c rest'].
      * rewrite covered_gap_then. reflexivity.
      * rewrite IH, append_assoc. reflexivity.
Qed.

Lemma scan_text_covers r text : covered (scan_text r text) = text.
Proof. unfold scan_text. now rewrite scan_from_covers. Qed.

(** [re.compile(r)]. *)
Definition compiled (r : regex) : Pattern := mkPattern (scan_text r) (scan_text_covers r).

(** [r{n}]. *)
Fixpoint times (n : nat) (r : regex) : regex :=
  match n with
  | 0 => Empty
  | 1 => r
  | S k => Seq r (times k r)
  end.

(** The characters of [s], one after the other. *)
Fixpoint literal (s : string) : regex :=
  match s with
  | EmptyString => Empty
  | String c EmptyString => Class (Ascii.eqb c)
  | String c s' => Seq (Class (Ascii.eqb c)) (literal s')
  end.

(** [r?]. *)
Definition optional (r : regex) : regex := Alt r Empty.


(** ["|".join(patterns)]. *)
Fixpoint alternation (patterns : list regex) : regex :=
  match patterns with
  | [] => Empty
  | [r] => r
  | r :: rest => Alt r (alternation rest)
  end.

End Re.

(** ** [compile] *)

(** [[`]]. *)
Definition backtick (c : ascii) : bool := Ascii.eqb c "`".

(** [[\w\W]]: any character, the line feed too. *)
Definition any_character (c : ascii) : bool := true.

(** Lines 45-47: a code block. *)
Definition code_block : Re.regex :=
  Re.Seq (Re.times 3 (Re.Class backtick))
    (Re.Seq (Re.Star false any_character)
       (Re.Seq (Re.times 3 (Re.Class backtick)) Re.EndOfLine)).

(** Line 49: an inline code block. *)
Definition inline_code : Re.regex :=
  Re.Seq (Re.Class backtick) (Re.Seq (Re.Star false any_character) (Re.Class backtick)).

(** Lines 44-50: the two, in this order. *)
Definition code_alternatives : Re.regex := Re.Alt code_block inline_code.

(** Lines 43-55: the code alternatives, or any one of the patterns of
    the scanners. *)
Definition combined_pattern (patterns : list Re.regex) : Re.regex :=
  Re.Alt code_alternatives (Re.alternation patterns).

(** [compile]; [patterns] is [[scanner.pattern() for scanner in
    self.scanners]] and [target_patterns] the same for
    [self.target_scanners], the classes of the scanners being no part of
    these sources. *)
Definition compile (patterns target_patterns : list Re.regex) (self : EzLinksReplacer)
  : EzLinksReplacer :=
  {| root := root self;
     file_map := file_map self;
     use_directory_urls := use_directory_urls self;
     scanners := scanners self;
     target_scanners := target_scanners self;
     regex := Re.compiled (combined_pattern patterns);
     target_regex := Re.compiled (Re.alternation target_patterns) |}.

(** ** A small site to run the engine on

    The scanners, the file map and the compiled patterns are collaborators
    of the engine.  The ones below serve to run it on concrete documents:
    a wikilink scanner ([[[target#anchor|text]]]), a reference link
    scanner ([[text][name]]) and a scanner of reference definitions
    ([[name]: target "title"]), each claiming the matches in which its
    own named groups took part. *)

Module Site.

(** [match.group(name) or ""]. *)
Fixpoint group (name : string) (gd : list (string * option string)) : string :=
  match gd with
  | [] => ""
  | (k, v) :: rest => if String.eqb k name then default "" v else group name rest
  end.

Definition wikilinks : Scanner :=
  {| sc_match m :=
       Str.truthy (group "wiki_link" (groupdict m))
       || Str.truthy (group "wiki_anchor" (groupdict m));
     extract m :=
       let g name := group name (groupdict m) in
       Some {| image := Str.truthy (g "wiki_is_image");
               text := if Str.truthy (g "wiki_text") then g "wiki_text" else g "wiki_link";
               target := g "wiki_link";
               anchor := g "wiki_anchor";
               title := "" |} |}.

Definition reference_links : Scanner :=
  {| sc_match m := Str.truthy (group "ref_name" (groupdict m));
     extract m :=
       let g name := group name (groupdict m) in
       Some {| image := false; text := g "ref_text"; target := g "ref_name";
               anchor := ""; title := "" |} |}.

Definition reference_definitions : Scanner :=
  {| sc_match m := Str.truthy (group "def_name" (groupdict m));
     extract m :=
       let g name := group name (groupdict m) in
       Some {| image := false; text := g "def_name"; target := g "def_target";
               anchor := ""; title := g "def_title" |} |}.

(** The scan that finds the pieces [ps] in the text [doc] they cover,
    and nothing in any other text. *)
Definition scan_of (doc : string) (ps : list piece) (text : string) : list piece :=
  if String.eqb text doc && String.eqb (covered ps) doc then ps else [Gap text].

Lemma scan_of_covers (doc : string) (ps : list piece) (text : string) :
  covered (scan_of doc ps text) = text.
Proof.
  unfold scan_of.
  destruct (String.eqb text doc) eqn:Hd; cbn [andb].
  - destruct (String.eqb (covered ps) doc) eqn:Hc.
    + apply String.eqb_eq in Hd, Hc. congruence.
    + cbn. apply append_empty_r.
  - cbn. apply append_empty_r.
Qed.

Definition pattern_of (doc : string) (ps : list piece) : Pattern :=
  mkPattern (scan_of doc ps) (scan_of_covers doc ps).

(** A second scanner of reference definitions, which reads the target
    of the link from the title group. *)
Definition titled_definitions : Scanner :=
  {| sc_match m := Str.truthy (group "def_name" (groupdict m));
     extract m :=
       let g name := group name (groupdict m) in
       Some {| image := false; text := g "def_name"; target := g "def_title";
               anchor := ""; title := "" |} |}.

(** The file map of a site under [/site/docs]. *)
Definition files : FileMapper :=
  {| search _ file_path :=
       if String.eqb file_path "Target Page" then Some "/site/docs/c/target-page.md"
       else if String.eqb file_path "target-page" then Some "/site/docs/c/target-page"
       else if String.eqb file_path "My Page" then Some "/site/docs/c/my page.md"
       else if String.eqb file_path "Gone" then None
       else Some "" |}.

(** A wikilink match. *)
Definition wiki (whole is_image link anchor label : string) : Match :=
  {| group0 := whole;
     groupdict := [("wiki_is_image", Some is_image); ("wiki_link", Some link);
                   ("wiki_anchor", Some anchor); ("wiki_text", Some label);
                   ("ref_text", None); ("ref_name", None)] |}.

(** A reference link match. *)
Definition ref (whole label name : string) : Match :=
  {| group0 := whole;
     groupdict := [("wiki_is_image", None); ("wiki_link", None);
                   ("wiki_anchor", None); ("wiki_text", None);
                   ("ref_text", Some label); ("ref_name", Some name)] |}.

(** A match of the code block or inline code alternative: no group
    took part in it. *)
Definition code (whole : string) : Match :=
  {| group0 := whole;
     groupdict := [("wiki_is_image", None); ("wiki_link", None);
                   ("wiki_anchor", None); ("wiki_text", None);
                   ("ref_text", None); ("ref_name", None)] |}.

(** A reference definition match, of the target pattern. *)
Definition def (whole name target title : string) : Match :=
  {| group0 := whole;
     groupdict := [("def_name", Some name); ("def_target", Some target);
                   ("def_title", Some title)] |}.

(** The engine of the site, with the patterns compiled for one document. *)
Definition engine (directory_urls : bool) (doc : string)
    (occurrences definitions : list piece) : EzLinksReplacer :=
  {| root := "/site/docs";
     file_map := files;
     use_directory_urls := directory_urls;
     scanners := [wikilinks; reference_links];
     target_scanners := [reference_definitions];
     regex := pattern_of doc occurrences;
     target_regex := pattern_of doc definitions |}.

Definition cwd : string := "/work".

End Site.

(** ** The documents of the site *)

(** A document with a wikilink to a page the file map does not know. *)
Definition gone_engine : EzLinksReplacer :=
  Site.engine true "Go [[Gone]] now."
    [Gap "Go "; Hit (Site.wiki "[[Gone]]" "" "Gone" "" ""); Gap " now."]
    [Gap "Go [[Gone]] now."].

(** The document of [gone_engine], for which the search gives [None],
    on a site without directory URLs. *)
Definition gone_engine_without_directory_urls : EzLinksReplacer :=
  Site.engine false "Go [[Gone]] now."
    [Gap "Go "; Hit (Site.wiki "[[Gone]]" "" "Gone" "" ""); Gap " now."]
    [Gap "Go [[Gone]] now."].

(** A document with a wikilink inside inline code and one outside. *)
Definition code_doc : string := "Use `[[Target Page]]` or [[Target Page]].".

Definition code_engine : EzLinksReplacer :=
  Site.engine true code_doc
    [Gap "Use "; Hit (Site.code "`[[Target Page]]`"); Gap " or ";
     Hit (Site.wiki "[[Target Page]]" "" "Target Page" "" ""); Gap "."]
    [Gap code_doc].

(** A document with a reference link to a definition that has a title
    and resolves to a path with a space. *)
Definition titled_doc : string := "[see this][ref2] [ref2]: My Page (My Title)".

Definition titled_engine : EzLinksReplacer :=
  Site.engine true titled_doc
    [Hit (Site.ref "[see this][ref2]" "see this" "ref2");
     Gap " [ref2]: My Page (My Title)"]
    [Gap "[see this][ref2] ";
     Hit (Site.def "[ref2]: My Page (My Title)" "ref2" "My Page" "My Title")].

(** A document with a reference link, with a text of its own, to a
    definition that has no title. *)
Definition untitled_doc : string := "[click here][ref1] [ref1]: Target Page".

Definition untitled_engine : EzLinksReplacer :=
  Site.engine true untitled_doc
    [Hit (Site.ref "[click here][ref1]" "click here" "ref1");
     Gap " [ref1]: Target Page"]
    [Gap "[click here][ref1] ";
     Hit (Site.def "[ref1]: Target Page" "ref1" "Target Page" "")].

Definition untitled_definition : Link :=
  {| image := false; text := "ref1"; target := "../c/target-page.md";
     anchor := ""; title := "" |}.

(** A document with a wikilink and a reference definition which both
    name a page the file map has no path for: its search gives the empty
    string. *)
Definition missing_doc : string := "[[Missing Page]] [lost]: Missing Page".

Definition missing_engine (directory_urls : bool) : EzLinksReplacer :=
  Site.engine directory_urls missing_doc
    [Hit (Site.wiki "[[Missing Page]]" "" "Missing Page" "" "");
     Gap " [lost]: Missing Page"]
    [Gap "[[Missing Page]] ";
     Hit (Site.def "[lost]: Missing Page" "lost" "Missing Page" "")].

(** A site whose root has a dot in the name of a directory. *)
Definition dotted_engine : EzLinksReplacer :=
  {| root := "/srv/my.site/docs";
     file_map := {| search _ _ := Some "/srv/my.site/docs/guide/intro" |};
     use_directory_urls := false;
     scanners := [Site.wikilinks];
     target_scanners := [];
     regex := Site.pattern_of "[[intro]]" [Hit (Site.wiki "[[intro]]" "" "intro" "" "")];
     target_regex := Site.pattern_of "[[intro]]" [Gap "[[intro]]"] |}.

(** A site with two scanners of reference definitions. *)
Definition twice_defined_doc : string := "[ref1]: Target Page (My Page)".

Definition twice_defined_engine : EzLinksReplacer :=
  {| root := "/site/docs";
     file_map := Site.files;
     use_directory_urls := true;
     scanners := [Site.wikilinks; Site.reference_links];
     target_scanners := [Site.reference_definitions; Site.titled_definitions];
     regex := Site.pattern_of twice_defined_doc [Gap twice_defined_doc];
     target_regex :=
       Site.pattern_of twice_defined_doc
         [Hit (Site.def twice_defined_doc "ref1" "Target Page" "My Page")] |}.

(** A document with a wikilink, with an anchor, to a page whose path has
    a space. *)
Definition spaced_engine : EzLinksReplacer :=
  Site.engine true "[[My Page#Set up]]"
    [Hit (Site.wiki "[[My Page#Set up]]" "" "My Page" "Set up" "")]
    [Gap "[[My Page#Set up]]"].

(** A document with a wikilink to an anchor of the document itself. *)
Definition anchor_engine : EzLinksReplacer :=
  Site.engine true "[[#usage|Usage]]"
    [Hit (Site.wiki "[[#usage|Usage]]" "" "" "usage" "Usage")]
    [Gap "[[#usage|Usage]]"].

(** A wikilink scanner whose extraction fails, registered before the
    wikilink scanner of the site. *)
Definition failing_wikilinks : Scanner :=
  {| sc_match := sc_match Site.wikilinks; extract _ := None |}.

Definition failing_engine : EzLinksReplacer :=
  {| root := "/site/docs";
     file_map := Site.files;
     use_directory_urls := true;
     scanners := [failing_wikilinks; Site.wikilinks];
     target_scanners := [];
     regex := Site.pattern_of "[[Target Page]]"
                [Hit (Site.wiki "[[Target Page]]" "" "Target Page" "" "")];
     target_regex := Site.pattern_of "[[Target Page]]" [Gap "[[Target Page]]"] |}.

(** A site on which the scanner of reference definitions scans the
    occurrences, and a definition that names no target. *)
Definition untargeted_engine : EzLinksReplacer :=
  {| root := "/site/docs";
     file_map := Site.files;
     use_directory_urls := true;
     scanners := [Site.reference_definitions];
     target_scanners := [Site.reference_definitions];
     regex := Site.pattern_of "[nowhere]:" [Hit (Site.def "[nowhere]:" "nowhere" "" "")];
     target_regex :=
       Site.pattern_of "[nowhere]:" [Hit (Site.def "[nowhere]:" "nowhere" "" "")] |}.

(** A document in which inline code is all the patterns find. *)
Definition quiet_engine : EzLinksReplacer :=
  Site.engine true "Run `make` twice."
    [Gap "Run "; Hit (Site.code "`make`"); Gap " twice."]
    [Gap "Run `make` twice."].

(** A document with a wikilink to a page the file map finds without
    an extension, on a site without directory URLs. *)
Definition suffix_engine : EzLinksReplacer :=
  Site.engine false "[[target-page]]"
    [Hit (Site.wiki "[[target-page]]" "" "target-page" "" "")]
    [Gap "[[target-page]]"].

(** *** Documents searched with the pattern [compile] builds *)

(** [[^...]]: any character but those of [cs]. *)
Definition none_of (cs : string) (c : ascii) : bool := negb (Str.contains c cs).

(** The pattern of the wikilink scanner of the site: an optional [!]
    (group [wiki_is_image]), two opening brackets, the fewest
    characters other than [#], [|] and the closing bracket (group
    [wiki_link]), an optional [#] and anchor (group [wiki_anchor]), an
    optional [|] and text (group [wiki_text]), two closing brackets. *)
Definition wikilink_pattern : Re.regex :=
  Re.Seq (Re.Group "wiki_is_image" (Re.optional (Re.Class (Ascii.eqb "!"))))
    (Re.Seq (Re.literal "[[")
       (Re.Seq (Re.Group "wiki_link" (Re.Star false (none_of "#|]")))
          (Re.Seq (Re.optional
                     (Re.Seq (Re.Class (Ascii.eqb "#"))
                        (Re.Group "wiki_anchor" (Re.Star false (none_of "|]")))))
             (Re.Seq (Re.optional
                        (Re.Seq (Re.Class (Ascii.eqb "|"))
                           (Re.Group "wiki_text" (Re.Star false (none_of "]")))))
                (Re.literal "]]"))))).

(** The site with the wikilink scanner registered and no target scanner,
    before [compile]. *)
Definition wiki_site : EzLinksReplacer :=
  {| root := "/site/docs";
     file_map := Site.files;
     use_directory_urls := true;
     scanners := [Site.wikilinks];
     target_scanners := [];
     regex := Re.compiled Re.Empty;
     target_regex := Re.compiled Re.Empty |}.

(** The same after [compile]. *)
Definition wiki_engine : EzLinksReplacer := compile [wikilink_pattern] [] wiki_site.

Definition line_feed : string := String Re.newline "".


(** The same code block at the start of a document. *)
Definition fenced_doc : string :=
  "```" +:+ line_feed
  +:+ "[[Target Page]]" +:+ line_feed
  +:+ "```" +:+ line_feed.



(** The match of an alternative without a group, in a pattern with the
    groups of [wikilink_pattern]. *)
Definition code_match (whole : string) : Match :=
  {| group0 := whole;
     groupdict := [("wiki_is_image", None); ("wiki_link", None);
                   ("wiki_anchor", None); ("wiki_text", None)] |}.

(** The match of [wikilink_pattern] on a wikilink with a target alone. *)
Definition plain_wikilink (link : string) : Match :=
  {| group0 := "[[" +:+ link +:+ "]]";
     groupdict := [("wiki_is_image", Some ""); ("wiki_link", Some link);
                   ("wiki_anchor", None); ("wiki_text", None)] |}.

(** ** The embedding at work *)

(** The search of [re] through a document, as [compile] sets it up:
    inline code is one match, the wikilink outside it another. *)
Example scan_code_doc :
  scan (regex wiki_engine) code_doc
  = [Gap "Use "; Hit (code_match "`[[Target Page]]`"); Gap " or ";
     Hit (plain_wikilink "Target Page"); Gap "."].
Proof. vm_compute. reflexivity. Qed.

(** A code block is one match, from fence to fence. *)
Example scan_fenced_doc :
  scan (regex wiki_engine) fenced_doc
  = [Hit (code_match ("```" +:+ line_feed +:+ "[[Target Page]]" +:+ line_feed +:+ "```"));
     Gap line_feed].
Proof. vm_compute. reflexivity. Qed.

(** After an empty match the search has to advance: [x*|ab] finds, in
    [abxd], the empty string, [ab], [x], and the empty string twice. *)
Example scan_after_empty_match :
  map group0 (hits (Re.scan_text
                      (Re.Alt (Re.Star true (Ascii.eqb "x")) (Re.literal "ab")) "abxd"))
  = [""; "ab"; "x"; ""; ""].
Proof. vm_compute. reflexivity. Qed.


Example join_root_path : PosixPath.join "/site/docs" ["a/b.md"] = "/site/docs/a/b.md".
Proof. reflexivity. Qed.

Example dirname_doc : PosixPath.dirname "/site/docs/a/b.md" = "/site/docs/a".
Proof. reflexivity. Qed.

Example normpath_dots : PosixPath.normpath "//a/./b/../c//" = "//a/c".
Proof. reflexivity. Qed.

Example normpath_slashes :
  map PosixPath.normpath ["/a"; "//a"; "///a"; "////a/b"; "//"; "/"; "///"; ""; "a/.."]
  = ["/a"; "//a"; "/a"; "/a/b"; "//"; "/"; "/"; "."; "."].
Proof. reflexivity. Qed.

Example relpath_sibling :
  PosixPath.relpath "/work" "/site/docs/c/target-page.md" "/site/docs/a"
  = Some "../c/target-page.md".
Proof. reflexivity. Qed.

Example relpath_self :
  PosixPath.relpath "/work" "/site/docs/a/b.md" "/site/docs/a" = Some "b.md".
Proof. reflexivity. Qed.

Example quote_space : UrlParse.quote "../my docs/target page.md" = "../my%20docs/target%20page.md".
Proof. reflexivity. Qed.

Example quote_reserved : UrlParse.quote "a~b%c#d" = "a~b%25c%23d".
Proof. reflexivity. Qed.

Example splitext_examples :
  map PosixPath.carries_extension
    ["docs/c/target-page.md"; "docs/c/target-page"; "/srv/my.site/docs/guide/intro";
     "a/.hidden"; "a/..x.y"; "a/b."]
  = [true; false; false; false; true; true].
Proof. reflexivity. Qed.

(** The end-to-end example of a wikilink to a page in a sibling directory. *)
Example replace_wikilink :
  replace Site.cwd
    (Site.engine true "See [[Target Page]]."
       [Gap "See "; Hit (Site.wiki "[[Target Page]]" "" "Target Page" "" ""); Gap "."]
       [Gap "See [[Target Page]]."])
    "a/b.md" "See [[Target Page]]."
  = (Ok "See [Target Page](../c/target-page.md).", []).
Proof. vm_compute. reflexivity. Qed.

Example replace_titled_reference :
  replace Site.cwd titled_engine "a/b.md" titled_doc
  = (Ok "[My Title](../c/my page.md) [ref2]: My Page (My Title)", []).
Proof. vm_compute. reflexivity. Qed.

(** ** Strings *)

Lemma has_prefix_append s t : Str.has_prefix s (s +:+ t) = true.
Proof.
  induction s as [|c s IH]; [reflexivity|].
  rewrite append_cons. cbn. now rewrite Ascii.eqb_refl, IH.
Qed.

Lemma infix_of_prefix s t : Str.has_prefix s t = true -> Str.infix s t = true.
Proof. intros H. destruct t; cbn [Str.infix]; now rewrite H. Qed.

Lemma infix_append a s b : Str.infix s (a +:+ s +:+ b) = true.
Proof.
  induction a as [|c a IH].
  - rewrite append_empty_l. apply infix_of_prefix, has_prefix_append.
  - rewrite append_cons. cbn [Str.infix]. rewrite IH. apply orb_true_r.
Qed.

Lemma contains_append c s t :
  Str.contains c (s +:+ t) = Str.contains c s || Str.contains c t.
Proof.
  induction s as [|d s IH]; [reflexivity|].
  rewrite append_cons. cbn. now rewrite IH, orb_assoc.
Qed.

Lemma contains_drop c i s : Str.contains c (Str.drop i s) = true -> Str.contains c s = true.
Proof.
  revert s. induction i as [|i IH]; intros [|d s]; cbn; try easy.
  intros H. rewrite (IH _ H). apply orb_true_r.
Qed.

Lemma contains_lstrip c d s :
  Str.contains c (Str.lstrip d s) = true -> Str.contains c s = true.
Proof.
  induction s as [|e s IH]; [easy|]. cbn [Str.lstrip].
  destruct (Ascii.eqb e d); [|easy].
  intros H. cbn. rewrite (IH H). apply orb_true_r.
Qed.

Section SplitFacts.

Variable c : ascii.

Lemma split_nonempty s : Str.split c s <> [].
Proof.
  destruct s as [|d s]; cbn; [easy|].
  destruct (Ascii.eqb d c); [easy|]. now destruct (Str.split c s).
Qed.

Lemma split_append_sep s t :
  Str.split c (s +:+ String c t) = Str.split c s ++ Str.split c t.
Proof.
  induction s as [|d s IH].
  - rewrite append_empty_l. cbn. now rewrite Ascii.eqb_refl.
  - rewrite append_cons. cbn [Str.split]. rewrite IH.
    destruct (Ascii.eqb d c); [reflexivity|].
    pose proof (split_nonempty s) as Hne.
    now destruct (Str.split c s).
Qed.

Lemma split_without_sep s : Str.contains c s = false -> Str.split c s = [s].
Proof.
  induction s as [|d s IH]; [reflexivity|]. cbn.
  intros [Hd Hs]%orb_false_elim. now rewrite Hd, (IH Hs).
Qed.

Lemma split_replicate k : Str.split c (Str.replicate k c) = repeat "" (S k).
Proof.
  induction k as [|k IH]; [reflexivity|].
  cbn [Str.replicate Str.split]. now rewrite Ascii.eqb_refl, IH.
Qed.

Lemma split_append_replicate s k :
  Str.split c (s +:+ Str.replicate k c) = Str.split c s ++ repeat "" k.
Proof.
  destruct k as [|k].
  - cbn. now rewrite append_empty_r, app_nil_r.
  - cbn [Str.replicate]. now rewrite split_append_sep, split_replicate.
Qed.

Lemma split_pieces_without_sep s :
  Forall (fun piece => Str.contains c piece = false) (Str.split c s).
Proof.
  induction s as [|d s IH]; [now repeat constructor|].
  cbn [Str.split]. destruct (Ascii.eqb d c) eqn:Hd; [now constructor|].
  destruct (Str.split c s) as [|h t]; [now repeat constructor; cbn; rewrite Hd|].
  inversion IH as [|? ? Hh Ht]; subst. constructor; [|exact Ht].
  cbn. now rewrite Hd, Hh.
Qed.

Lemma rstrip_replicate s : exists k, s = Str.rstrip c s +:+ Str.replicate k c.
Proof.
  induction s as [|d s [k IH]]; [now exists 0|].
  cbn [Str.rstrip]. destruct (Str.rstrip c s) as [|e r] eqn:Hr.
  - rewrite append_empty_l in IH. destruct (Ascii.eqb d c) eqn:Hd.
    + apply Ascii.eqb_eq in Hd as ->. exists (S k). now rewrite IH at 1.
    + exists k. now rewrite IH at 1.
  - exists k. now rewrite append_cons, <- IH.
Qed.

Lemma all_are_replicate k : Str.all_are c (Str.replicate k c) = true.
Proof. induction k as [|k IH]; [reflexivity|]. cbn. now rewrite Ascii.eqb_refl. Qed.

Lemma rfind_succ_zero s : Str.rfind_succ c s = 0 -> Str.contains c s = false.
Proof.
  induction s as [|d s IH]; [reflexivity|]. cbn.
  destruct (Str.rfind_succ c s); [|discriminate].
  destruct (Ascii.eqb d c); [discriminate|]. intros _. now apply IH.
Qed.

Lemma take_drop i s : Str.take i s +:+ Str.drop i s = s.
Proof.
  revert s. induction i as [|i IH]; intros [|d s]; try reflexivity.
  cbn [Str.take Str.drop]. now rewrite append_cons, IH.
Qed.

Lemma drop_rfind_succ s :
  Str.contains c (Str.drop (Str.rfind_succ c s) s) = false.
Proof.
  induction s as [|d s IH]; [reflexivity|]. cbn [Str.rfind_succ].
  destruct (Str.rfind_succ c s) as [|k] eqn:Hk.
  - apply rfind_succ_zero in Hk. destruct (Ascii.eqb d c) eqn:Hd; cbn.
    + exact Hk.
    + now rewrite Hd, Hk.
  - exact IH.
Qed.

Lemma take_rfind_succ s :
  Str.rfind_succ c s = 0
  \/ exists h, Str.take (Str.rfind_succ c s) s = h +:+ String c "".
Proof.
  induction s as [|d s IH]; [now left|]. cbn [Str.rfind_succ].
  destruct (Str.rfind_succ c s) as [|k] eqn:Hk.
  - destruct (Ascii.eqb d c) eqn:Hd; [|now left].
    right. exists "". apply Ascii.eqb_eq in Hd as ->. reflexivity.
  - right. destruct IH as [|[h Hh]]; [discriminate|].
    exists (String d h). change (Str.take (S (S k)) (String d s))
      with (String d (Str.take (S k) s)). now rewrite Hh.
Qed.

Lemma endswith_inv s : Str.endswith c s = true -> exists x, s = x +:+ String c "".
Proof.
  induction s as [|d s IH]; [discriminate|]. cbn [Str.endswith].
  destruct s as [|e s].
  - intros ->%Ascii.eqb_eq. now exists "".
  - intros H. destruct (IH H) as [x ->]. now exists (String d x).
Qed.

End SplitFacts.

(** ** The path from a directory to a file in it

    [relpath] of a path, from the [dirname] of that path, is the
    [basename] of the path, whenever that is the name of a file: not
    empty, not [.], not [..]. *)

Section NormFacts.

Import PosixPath.

Lemma norm_step_name init acc name :
  names_a_file name = true -> norm_step init acc name = acc ++ [name].
Proof.
  unfold names_a_file, norm_step.
  intros [[H1 H2]%andb_true_iff H3]%andb_true_iff.
  apply negb_true_iff in H1, H2, H3. now rewrite H1, H2, H3.
Qed.

Lemma fold_norm_absolute init l acc :
  init <> 0 -> fold_left (norm_step init) l acc = fold_left (norm_step 1) l acc.
Proof.
  intros Hi. revert acc. induction l as [|comp l IH]; intros acc; [reflexivity|].
  cbn [fold_left]. rewrite IH. f_equal.
  destruct init as [|n]; [easy|reflexivity].
Qed.

Lemma fold_norm_empties init k acc :
  fold_left (norm_step init) (repeat "" k) acc = acc.
Proof. induction k as [|k IH]; [reflexivity|]. exact IH. Qed.

Lemma kept_name s name :
  Str.contains sep name = false ->
  names_a_file name = true ->
  kept (s +:+ String sep name) = kept s ++ [name].
Proof.
  intros Hsep Hname. unfold kept.
  rewrite split_append_sep, (split_without_sep _ _ Hsep), fold_left_app.
  cbn [fold_left]. now apply norm_step_name.
Qed.

Lemma kept_separators s k : kept (s +:+ Str.replicate k sep) = kept s.
Proof.
  unfold kept. now rewrite split_append_replicate, fold_left_app, fold_norm_empties.
Qed.

Lemma Forall_removelast {A} (P : A -> Prop) (l : list A) :
  Forall P l -> Forall P (removelast l).
Proof.
  induction 1 as [|x l Hx Hl IH]; [constructor|].
  cbn. destruct l; [constructor|]. now constructor.
Qed.

Lemma norm_step_components init acc comp :
  Forall component acc ->
  Str.contains sep comp = false ->
  Forall component (norm_step init acc comp).
Proof.
  intros Hacc Hsep. unfold norm_step.
  destruct (String.eqb comp "" || String.eqb comp ".") eqn:Hskip; [exact Hacc|].
  apply orb_false_elim in Hskip as [Hne _].
  match goal with |- context [if ?b then _ else _] => destruct b end.
  - apply Forall_app. split; [exact Hacc|]. repeat constructor; [|exact Hsep].
    now destruct comp.
  - now apply Forall_removelast.
Qed.

Lemma fold_norm_components init l acc :
  Forall component acc ->
  Forall (fun comp => Str.contains sep comp = false) l ->
  Forall component (fold_left (norm_step init) l acc).
Proof.
  intros Hacc Hl. revert acc Hacc.
  induction Hl as [|comp l Hcomp _ IH]; intros acc Hacc; [exact Hacc|].
  cbn [fold_left]. apply IH. now apply norm_step_components.
Qed.

Lemma kept_components s : Forall component (kept s).
Proof.
  apply fold_norm_components; [constructor | apply split_pieces_without_sep].
Qed.

Lemma split_concat comps :
  Forall component comps ->
  List.filter Str.truthy (Str.split sep (String.concat "/" comps)) = comps.
Proof.
  induction 1 as [|x comps [Hx Hsep] Hcomps IH]; [reflexivity|].
  destruct comps as [|y comps].
  - cbn [String.concat]. rewrite (split_without_sep _ _ Hsep). cbn. now rewrite Hx.
  - change (String.concat "/" (x :: y :: comps))
      with (x +:+ String sep (String.concat "/" (y :: comps))).
    rewrite split_append_sep, (split_without_sep _ _ Hsep), List.filter_app, IH.
    cbn. now rewrite Hx.
Qed.

Lemma initial_slashes_absolute q :
  Str.startswith sep q = true -> initial_slashes q = 1 \/ initial_slashes q = 2.
Proof.
  intros H. unfold initial_slashes. rewrite H.
  destruct (Str.has_prefix "//" q && negb (Str.has_prefix "///" q)); auto.
Qed.

(** The components [relpath] compares, for a path that is absolute. *)
Lemma normpath_components q :
  Str.startswith sep q = true ->
  List.filter Str.truthy (Str.split sep (normpath q)) = kept q.
Proof.
  intros Habs. unfold normpath.
  assert (Str.truthy q = true) as -> by (now destruct q). cbn [negb].
  pose proof (kept_components q) as Hcomps.
  assert (Hfold : fold_left (norm_step (initial_slashes q)) (Str.split sep q) [] = kept q).
  { apply fold_norm_absolute. destruct (initial_slashes_absolute q Habs); lia. }
  rewrite Hfold.
  destruct (initial_slashes_absolute q Habs) as [-> | ->];
    cbn [Str.replicate]; rewrite !append_cons, append_empty_l;
    cbn [Str.truthy Str.split]; rewrite !Ascii.eqb_refl; cbn [List.filter Str.truthy];
    now apply split_concat.
Qed.

Lemma common_prefix_len_app l r : common_prefix_len l (l ++ r) = length l.
Proof.
  induction l as [|x l IH]; [now destruct r|].
  cbn. now rewrite String.eqb_refl, IH.
Qed.

Lemma skipn_length_app {A} (l r : list A) : skipn (length l) (l ++ r) = r.
Proof. induction l as [|x l IH]; [reflexivity|exact IH]. Qed.

End NormFacts.

Section OwnDirectory.

Import PosixPath.

Lemma startswith_append ch s t :
  Str.truthy s = true -> Str.startswith ch (s +:+ t) = Str.startswith ch s.
Proof. now destruct s. Qed.

Lemma startswith_contains ch s :
  Str.startswith ch s = true -> Str.contains ch s = true.
Proof. destruct s as [|d s]; [discriminate|]. cbn. now intros ->. Qed.

Lemma all_are_startswith ch s :
  Str.truthy s = true -> Str.all_are ch s = true -> Str.startswith ch s = true.
Proof. destruct s as [|d s]; [discriminate|]. cbn. now intros _ [-> _]%andb_true_iff. Qed.

Lemma append_separator s t : (s +:+ String sep "") +:+ t = s +:+ String sep t.
Proof. now rewrite append_assoc. Qed.

Variable cwd : string.
Hypothesis cwd_absolute : Str.startswith sep cwd = true.

(** [join(cwd, b)] for a relative [b]: [b] after a prefix that depends
    on [cwd] alone and ends in a separator. *)
Lemma join_cwd_relative :
  exists x, forall b,
      Str.startswith sep b = false ->
      join cwd [b] = x +:+ String sep b
      /\ Str.startswith sep (x +:+ String sep b) = true.
Proof.
  assert (Ht : Str.truthy cwd = true) by (now destruct cwd).
  destruct (Str.endswith sep cwd) eqn:He.
  - destruct (endswith_inv _ _ He) as [x Hx]. exists x. intros b Hb.
    cbn [join fold_left]. unfold join2. rewrite Hb, Ht, He. cbn [negb orb].
    rewrite Hx at 1. rewrite append_separator. split; [reflexivity|].
    destruct x as [|d x]; [reflexivity|].
    rewrite Hx in cwd_absolute. exact cwd_absolute.
  - exists cwd. intros b Hb.
    cbn [join fold_left]. unfold join2. rewrite Hb, Ht, He. cbn [negb orb].
    split; [reflexivity|]. now rewrite startswith_append.
Qed.

Lemma components_absolute q :
  Str.startswith sep q = true -> components cwd q = kept q.
Proof.
  intros Hq. unfold components, abspath, isabs. rewrite Hq.
  now apply normpath_components.
Qed.

Lemma components_relative x q :
  Str.startswith sep q = false ->
  join cwd [q] = x +:+ String sep q ->
  Str.startswith sep (x +:+ String sep q) = true ->
  components cwd q = kept (x +:+ String sep q).
Proof.
  intros Hq Hj Habs. unfold components, abspath, isabs. rewrite Hq, Hj.
  now apply normpath_components.
Qed.

Lemma kept_one_separator s : kept (s +:+ String sep "") = kept s.
Proof. exact (kept_separators s 1). Qed.

(** The components of a path are those of its [dirname], and its
    [basename] after them. *)
Lemma components_of_file full :
  names_a_file (basename full) = true ->
  components cwd full = components cwd (dirname full) ++ [basename full].
Proof.
  intros Hname. unfold basename in *. unfold dirname.
  pose proof (take_drop (Str.rfind_succ sep full) full) as Hfull.
  pose proof (drop_rfind_succ sep full) as Hsep.
  destruct join_cwd_relative as [x Hx].
  set (name := Str.drop (Str.rfind_succ sep full) full) in *.
  set (head := Str.take (Str.rfind_succ sep full) full) in *.
  assert (Hrel : Str.startswith sep name = false).
  { destruct (Str.startswith sep name) eqn:H; [|reflexivity].
    apply startswith_contains in H. congruence. }
  destruct (take_rfind_succ sep full) as [Hzero | [h Hh]].
  - (* no separator in the path *)
    assert (Hhead : head = "") by (subst head; now rewrite Hzero).
    rewrite Hhead in *. rewrite append_empty_l in Hfull. rewrite <- Hfull.
    cbn [Str.truthy andb].
    destruct (Hx name Hrel) as [Hj Ha].
    destruct (Hx "" eq_refl) as [Hj0 Ha0].
    rewrite (components_relative x name Hrel Hj Ha).
    rewrite (components_relative x "" eq_refl Hj0 Ha0).
    now rewrite kept_name, kept_one_separator.
  - fold head in Hh.
    assert (Hth : Str.truthy head = true) by (rewrite Hh; now destruct h).
    assert (Hfull' : full = h +:+ String sep name).
    { now rewrite <- Hfull, Hh, append_separator. }
    rewrite Hth. cbn [andb].
    destruct (Str.all_are sep head) eqn:Hall; cbn [negb].
    + (* the head is all separators *)
      pose proof (all_are_startswith _ _ Hth Hall) as Hhabs.
      assert (Hfabs : Str.startswith sep full = true).
      { now rewrite <- Hfull, startswith_append. }
      rewrite (components_absolute full Hfabs), (components_absolute head Hhabs).
      rewrite Hfull', Hh. now rewrite kept_name, kept_one_separator.
    + destruct (rstrip_replicate sep head) as [k Hk].
      remember (Str.rstrip sep head) as dh eqn:Hdh. clear Hdh.
      assert (Htd : Str.truthy dh = true).
      { destruct dh; [|reflexivity]. rewrite append_empty_l in Hk.
        rewrite Hk, all_are_replicate in Hall. discriminate. }
      assert (Hsame : Str.startswith sep dh = Str.startswith sep full).
      { rewrite <- Hfull, (startswith_append _ head name Hth), Hk.
        symmetry. now apply startswith_append. }
      destruct (Str.startswith sep full) eqn:Hfabs.
      * (* an absolute path *)
        rewrite (components_absolute full Hfabs), (components_absolute dh Hsame).
        rewrite <- (kept_separators dh k), <- Hk, Hh, kept_one_separator.
        now rewrite Hfull', kept_name.
      * (* a relative path *)
        destruct (Hx full Hfabs) as [Hj Ha].
        destruct (Hx dh Hsame) as [Hjd Had].
        rewrite (components_relative x full Hfabs Hj Ha).
        rewrite (components_relative x dh Hsame Hjd Had).
        rewrite <- (kept_separators (x +:+ String sep dh) k).
        rewrite append_assoc, append_cons, <- Hk, Hh.
        rewrite <- append_cons, <- append_assoc, kept_one_separator.
        rewrite Hfull', <- append_cons, <- append_assoc.
        now rewrite kept_name.
Qed.

(** [relpath] of a file from its own directory is its name. *)
Lemma relpath_to_own_directory full :
  names_a_file (basename full) = true ->
  relpath cwd full (dirname full) = Some (basename full).
Proof.
  intros Hname. unfold relpath.
  assert (Str.truthy full = true) as ->.
  { destruct full; [discriminate Hname|reflexivity]. }
  cbn [negb]. rewrite (components_of_file full Hname).
  rewrite common_prefix_len_app, Nat.sub_diag, skipn_length_app.
  reflexivity.
Qed.

End OwnDirectory.

(** A path that carries an extension has a dot in it. *)
Lemma extension_has_dot p :
  PosixPath.carries_extension p = true -> Str.contains "." p = true.
Proof.
  unfold PosixPath.carries_extension, PosixPath.basename. intros H.
  eapply contains_drop, contains_lstrip, H.
Qed.

(** ** [quote] and [render] *)

Lemma quote_append s t :
  UrlParse.quote (s +:+ t) = UrlParse.quote s +:+ UrlParse.quote t.
Proof.
  induction s as [|c s IH]; [reflexivity|].
  rewrite append_cons. cbn [UrlParse.quote]. now rewrite IH, append_assoc.
Qed.

Lemma quote_byte_has_no_space c : Str.contains " " (UrlParse.quote_byte c) = false.
Proof. destruct c as [[] [] [] [] [] [] [] []]; reflexivity. Qed.

Lemma quote_has_no_space s : Str.contains " " (UrlParse.quote s) = false.
Proof.
  induction s as [|c s IH]; [reflexivity|].
  cbn [UrlParse.quote]. now rewrite contains_append, quote_byte_has_no_space, IH.
Qed.

Lemma quote_space_between a b :
  UrlParse.quote (a +:+ " " +:+ b) = UrlParse.quote a +:+ "%20" +:+ UrlParse.quote b.
Proof. now rewrite !quote_append. Qed.

Lemma render_title_as_text d :
  render d true
  = (if image d then "!" else "") +:+ "["
    +:+ (if Str.truthy (title d) then title d else text d)
    +:+ "](" +:+ target d
    +:+ (if Str.truthy (anchor d) then "#" +:+ anchor d else "") +:+ ")".
Proof.
  unfold render. destruct (Str.truthy (title d)); cbn [andb]; reflexivity.
Qed.

Lemma render_resolved link t :
  render (set_target link t) false
  = (if image link then "!" else "") +:+ "[" +:+ text link +:+ "](" +:+ t
    +:+ (if Str.truthy (anchor link) then "#" +:+ anchor link else "")
    +:+ (if Str.truthy (title link) then " " +:+ dquote +:+ title link +:+ dquote else "")
    +:+ ")".
Proof. reflexivity. Qed.

(** ** The monad, and [re.sub] over the pieces of a scan *)

Lemma bind_ok {A B} (a : A) (l : list log_record) (f : A -> M B) :
  bind (Ok a, l) f = (fst (f a), l ++ snd (f a)).
Proof. unfold bind. now destruct (f a). Qed.

Lemma bind_raise {A B} (e : exn) (l : list log_record) (f : A -> M B) :
  bind (Raise e, l) f = (Raise e, l).
Proof. reflexivity. Qed.

Lemma bind_ok_inv {A B} (m : M A) (f : A -> M B) (b : B) (l : list log_record) :
  bind m f = (Ok b, l) ->
  exists a l1 l2, m = (Ok a, l1) /\ f a = (Ok b, l2) /\ l = l1 ++ l2.
Proof.
  destruct m as [[a|e] l1]; [|discriminate].
  rewrite bind_ok. destruct (f a) as [r l2] eqn:Hf. cbn.
  intros [= -> <-]. now exists a, l1, l2.
Qed.

Lemma contained_bind {A B} (m : M A) (f : A -> M B) :
  keeps_BrokenLink_in m ->
  (forall a, keeps_BrokenLink_in (f a)) ->
  keeps_BrokenLink_in (bind m f).
Proof.
  intros Hm Hf msg. destruct m as [[a|e] l].
  - rewrite bind_ok. apply Hf.
  - rewrite bind_raise. cbn. intros Heq. apply (Hm msg). cbn. congruence.
Qed.

Lemma contained_ret {A} (a : A) : keeps_BrokenLink_in (ret a).
Proof. intros msg. discriminate. Qed.

Lemma contained_try {A} (o : outcome A) (handler : string -> M A) :
  (forall msg, keeps_BrokenLink_in (handler msg)) ->
  keeps_BrokenLink_in (try_except_BrokenLink (lift o) handler).
Proof.
  intros Hh msg. destruct o as [a|[msg'| |]]; cbn; try discriminate.
  specialize (Hh msg' msg). destruct (handler msg'). apply Hh.
Qed.

Lemma sub_pieces_gap repl s rest :
  sub_pieces repl (Gap s :: rest)
  = (prepend s (fst (sub_pieces repl rest)), snd (sub_pieces repl rest)).
Proof.
  cbn [sub_pieces]. destruct (sub_pieces repl rest) as [[out|e] l]; cbn.
  - now rewrite app_nil_r.
  - reflexivity.
Qed.

Lemma sub_pieces_hit repl m rest r l :
  repl m = (Ok r, l) ->
  sub_pieces repl (Hit m :: rest)
  = (prepend r (fst (sub_pieces repl rest)), l ++ snd (sub_pieces repl rest)).
Proof.
  intros H. cbn [sub_pieces]. rewrite H.
  destruct (sub_pieces repl rest) as [[out|e] l']; cbn.
  - now rewrite app_nil_r.
  - reflexivity.
Qed.

Lemma fst_sub_pieces_hit repl m rest :
  fst (sub_pieces repl (Hit m :: rest))
  = match fst (repl m) with
    | Ok r => prepend r (fst (sub_pieces repl rest))
    | Raise e => Raise e
    end.
Proof.
  destruct (repl m) as [[r|e] l] eqn:H.
  - now rewrite (sub_pieces_hit _ _ _ _ _ H).
  - cbn [sub_pieces]. now rewrite H.
Qed.

Lemma prepend_ok_inv s o out :
  prepend s o = Ok out -> exists out', o = Ok out' /\ out = s +:+ out'.
Proof. destruct o as [out'|e]; [|discriminate]. intros [= <-]. now exists out'. Qed.



Lemma sub_pieces_verbatim repl ps :
  (forall m, In m (hits ps) -> fst (repl m) = Ok (group0 m)) ->
  fst (sub_pieces repl ps) = Ok (covered ps).
Proof.
  induction ps as [|[s|m] ps IH]; intros H.
  - reflexivity.
  - rewrite sub_pieces_gap. cbn [fst covered]. now rewrite IH.
  - rewrite fst_sub_pieces_hit, (H m) by now left.
    rewrite IH; [reflexivity|]. intros m' Hm'. apply H. now right.
Qed.

(** ** The engine, match by match *)

(** The suffix is added exactly to the results that have no dot in them,
    so a result that carries an extension is kept as it is. *)
Lemma add_md_dotless s :
  add_md (Some s) = Ok (if Str.contains "." s then s else s +:+ ".md").
Proof. unfold add_md. now destruct (Str.contains "." s). Qed.

Lemma add_md_keeps_extension s :
  PosixPath.carries_extension s = true -> add_md (Some s) = Ok s.
Proof. intros H. now rewrite add_md_dotless, (extension_has_dot _ H). Qed.

(** With directory URLs, a search that fails raises a Broken-Link. *)
Lemma search_failure_with_directory_urls self path link_target :
  use_directory_urls self = true ->
  search (file_map self) path link_target = None
  \/ search (file_map self) path link_target = Some "" ->
  search_file_map self path link_target
  = Raise (BrokenLink ("'" +:+ link_target +:+ "' not found.")).
Proof.
  intros Hd [H|H]; unfold search_file_map; now rewrite Hd, H.
Qed.

(** Without directory URLs, the search never raises a Broken-Link: what
    the test for a failed search sees has the suffix or a dot in it. *)
Lemma search_without_directory_urls self path link_target msg :
  use_directory_urls self = false ->
  search_file_map self path link_target <> Raise (BrokenLink msg).
Proof.
  intros Hd. unfold search_file_map. rewrite Hd. cbn [negb].
  destruct (search (file_map self) path link_target) as [s|]; [|discriminate].
  rewrite add_md_dotless. cbn [obind].
  destruct (Str.contains "." s) eqn:Hdot.
  - destruct s; [discriminate Hdot|discriminate].
  - destruct s; discriminate.
Qed.


Section DoReplace.

Variable cwd : string.
Variable self : EzLinksReplacer.
Variable path : string.

Lemma do_replace_scan_first_claim scs m tm :
  do_replace_scan cwd self path scs m tm =
  match first_claim scs m with
  | Some scanner =>
      let? out := replace_claimed cwd self path scanner m tm in Ok (Some out)
  | None => Ok None
  end.
Proof.
  induction scs as [|sc scs IH]; [reflexivity|].
  cbn. destruct (sc_match sc m); [reflexivity | exact IH].
Qed.

Lemma do_replace_returned m tm out :
  do_replace_scan cwd self path (scanners self) m tm = Ok (Some out) ->
  do_replace cwd self path m tm = (Ok out, []).
Proof. intros H. unfold do_replace. now rewrite H. Qed.

Lemma do_replace_fell_through m tm :
  do_replace_scan cwd self path (scanners self) m tm = Ok None ->
  do_replace cwd self path m tm = (Ok (group0 m), []).
Proof. intros H. unfold do_replace. now rewrite H. Qed.

Lemma do_replace_broken m tm msg :
  do_replace_scan cwd self path (scanners self) m tm = Raise (BrokenLink msg) ->
  do_replace cwd self path m tm = (Ok (group0 m), [(DEBUG, "[EzLinks] " +:+ msg)]).
Proof. intros H. unfold do_replace. now rewrite H. Qed.

Lemma do_replace_contained m tm :
  keeps_BrokenLink_in (do_replace cwd self path m tm).
Proof.
  unfold do_replace. apply contained_bind.
  - apply contained_try. intros msg. apply contained_bind.
    + intros msg'. discriminate.
    + intros _. apply contained_ret.
  - intros [out|]; apply contained_ret.
Qed.

Lemma sub_pieces_contained repl ps :
  (forall m, keeps_BrokenLink_in (repl m)) ->
  keeps_BrokenLink_in (sub_pieces repl ps).
Proof.
  intros Hrepl. induction ps as [|[s|m] ps IH]; cbn [sub_pieces].
  - apply contained_ret.
  - apply contained_bind; [exact IH | intros; apply contained_ret].
  - apply contained_bind; [apply Hrepl|]. intros r.
    apply contained_bind; [exact IH | intros; apply contained_ret].
Qed.

Lemma build_target_loop_contained ms tm :
  keeps_BrokenLink_in (build_target_loop cwd self path ms tm).
Proof.
  revert tm. induction ms as [|m ms IH]; intros tm; cbn [build_target_loop].
  - apply contained_ret.
  - destruct (build_target_scan cwd self path (target_scanners self) m tm) as [tm' r].
    apply contained_bind; [|intros; apply IH].
    apply contained_try. intros msg msg'. discriminate.
Qed.

Lemma replace_contained markdown :
  keeps_BrokenLink_in (replace cwd self path markdown).
Proof.
  unfold replace, build_target_map, re_sub. apply contained_bind.
  - apply build_target_loop_contained.
  - intros tm. apply sub_pieces_contained. intros m. apply do_replace_contained.
Qed.

End DoReplace.

Section TargetMap.

Variable cwd : string.
Variable self : EzLinksReplacer.
Variable path : string.

Lemma replace_claimed_from_map scanner m tm link definition :
  extract scanner m = Some link ->
  Str.truthy (target link) = true ->
  tm !! target link = Some definition ->
  replace_claimed cwd self path scanner m tm = Ok (render definition true).
Proof.
  intros He Ht Hd. unfold replace_claimed. now rewrite He, Ht, Hd.
Qed.

Lemma do_replace_from_map m tm scanner link definition :
  first_claim (scanners self) m = Some scanner ->
  extract scanner m = Some link ->
  Str.truthy (target link) = true ->
  tm !! target link = Some definition ->
  do_replace cwd self path m tm = (Ok (render definition true), []).
Proof.
  intros Hc He Ht Hd. apply do_replace_returned.
  rewrite do_replace_scan_first_claim, Hc.
  now rewrite (replace_claimed_from_map _ _ _ _ _ He Ht Hd).
Qed.

Lemma define_claimed_target scanner m d :
  define_claimed cwd self path scanner m = Ok d ->
  exists resolved,
    PosixPath.relpath cwd resolved (abs_from self path) = Some (target d).
Proof.
  unfold define_claimed. destruct (extract scanner m) as [link|]; [|discriminate].
  destruct (negb (Str.truthy (target link))).
  - destruct (Str.truthy (anchor link)); [|discriminate]. cbn. unfold relpath_from.
    destruct (PosixPath.relpath _ _ _) as [rel|] eqn:Hrel; [|discriminate].
    intros [= <-]. eexists. exact Hrel.
  - destruct (search_file_map self path (target link)) as [r|]; [|discriminate].
    cbn. unfold relpath_from.
    destruct (PosixPath.relpath _ _ _) as [rel|] eqn:Hrel; [|discriminate].
    intros [= <-]. eexists. exact Hrel.
Qed.

Lemma build_target_scan_keyed scs m tm :
  keyed_by_text tm ->
  keyed_by_text (fst (build_target_scan cwd self path scs m tm)).
Proof.
  revert tm. induction scs as [|sc scs IH]; intros tm Htm; [exact Htm|].
  cbn [build_target_scan]. destruct (sc_match sc m); [|now apply IH].
  destruct (define_claimed cwd self path sc m) as [link|e]; [|exact Htm].
  apply IH. intros k d. rewrite lookup_insert. case_decide.
  - intros [= <-]. assumption.
  - apply Htm.
Qed.

Lemma build_target_loop_keyed ms tm tm' log :
  keyed_by_text tm ->
  build_target_loop cwd self path ms tm = (Ok tm', log) ->
  keyed_by_text tm'.
Proof.
  revert tm log. induction ms as [|m ms IH]; intros tm log Htm; cbn [build_target_loop].
  - now intros [= <- _].
  - pose proof (build_target_scan_keyed (target_scanners self) m tm Htm) as Hk.
    destruct (build_target_scan cwd self path (target_scanners self) m tm) as [tm1 r].
    intros H. apply bind_ok_inv in H as (_ & l1 & l2 & _ & H & _).
    exact (IH tm1 l2 Hk H).
Qed.

Lemma build_target_map_keyed markdown tm log :
  build_target_map cwd self path markdown = (Ok tm, log) -> keyed_by_text tm.
Proof.
  apply build_target_loop_keyed. intros k d. now rewrite lookup_empty.
Qed.

End TargetMap.

Lemma do_replace_resolved cwd self path m tm scanner link resolved rel :
  first_claim (scanners self) m = Some scanner ->
  extract scanner m = Some link ->
  resolves self path tm link resolved ->
  PosixPath.relpath cwd resolved (abs_from self path) = Some rel ->
  do_replace cwd self path m tm
  = (Ok (render (set_target link (UrlParse.quote rel)) false), []).
Proof.
  intros Hc He Hres Hrel. apply do_replace_returned.
  rewrite do_replace_scan_first_claim, Hc. unfold replace_claimed. rewrite He.
  destruct Hres as [(Ht & Ha & ->)|(Ht & Hm & Hs)]; rewrite Ht; cbn [negb].
  - rewrite Ha. unfold relpath_from. cbn [target set_target]. now rewrite Hrel.
  - rewrite Hm, Hs. cbn [obind]. unfold relpath_from. cbn [target set_target].
    now rewrite Hrel.
Qed.



(** ** The code alternatives of the combined pattern *)





(** The search ends: a match is not longer than what is left of the
    text, and after an empty match the next one takes something. *)
Lemma match_at_advances r must_advance rest n m :
  Re.match_at r must_advance rest = Some (n, m) ->
  n <= String.length rest /\ (must_advance = true -> 0 < n).
Proof.
  unfold Re.match_at.
  destruct (List.find _ _) as [way|] eqn:Hfind; [|discriminate].
  intros [= <- _]. split; [lia|]. intros ->.
  apply List.find_some in Hfind as [_ Hacc]. unfold Re.acceptable in Hacc.
  cbn [negb orb] in Hacc. apply Nat.ltb_lt in Hacc. lia.
Qed.

Lemma length_drop n s : String.length (Str.drop n s) = String.length s - n.
Proof.
  revert s. induction n as [|n IH]; intros [|c s]; cbn [Str.drop String.length];
    try reflexivity. apply IH.
Qed.

(** Two rounds for each place of what is left, and one or two for the
    end, are all the rounds the search makes: with more of them the scan
    is the same. *)
Lemma scan_from_rounds r fuel fuel' gap rest (must_advance : bool) :
  2 * String.length rest + (if must_advance then 1 else 2) <= fuel ->
  2 * String.length rest + (if must_advance then 1 else 2) <= fuel' ->
  Re.scan_from r fuel gap rest must_advance = Re.scan_from r fuel' gap rest must_advance.
Proof.
  revert fuel' gap rest must_advance.
  induction fuel as [|fuel IH]; intros fuel' gap rest must_advance Hf Hf'.
  { destruct must_advance; lia. }
  destruct fuel' as [|fuel']; [destruct must_advance; lia|].
  cbn [Re.scan_from].
  destruct (Re.match_at r must_advance rest) as [[n m]|] eqn:Hm.
  - apply match_at_advances in Hm as [Hn Hpos]. f_equal. f_equal.
    pose proof (length_drop n rest) as Hd.
    destruct n as [|n].
    + destruct must_advance; [specialize (Hpos eq_refl); lia|].
      cbn [Nat.eqb]. apply IH; rewrite Hd; cbv iota in *; lia.
    + cbn [Nat.eqb]. apply IH; rewrite Hd; destruct must_advance; lia.
  - destruct rest as [|c rest']; [reflexivity|].
    cbn [String.length] in Hf, Hf'. apply IH; destruct must_advance; lia.
Qed.

Lemma scan_text_rounds r text more :
  Re.scan_text r text = Re.scan_from r (2 * String.length text + 2 + more) "" text false.
Proof. unfold Re.scan_text. apply scan_from_rounds; lia. Qed.


(** ** The properties *)

(** C1. Whenever the handling of a match raises a Broken-Link, the engine
    catches it within that match: it logs the message at debug severity,
    emits the matched text unchanged, and goes on with the rest of the
    document; and [replace] never lets a Broken-Link out to its caller. *)
Theorem broken_link_is_caught_per_match cwd self path :
  (forall m tm msg,
      do_replace_scan cwd self path (scanners self) m tm = Raise (BrokenLink msg) ->
      do_replace cwd self path m tm
        = (Ok (group0 m), [(DEBUG, "[EzLinks] " +:+ msg)])
      /\ forall rest,
          sub_pieces (fun m' => do_replace cwd self path m' tm) (Hit m :: rest)
          = (prepend (group0 m)
               (fst (sub_pieces (fun m' => do_replace cwd self path m' tm) rest)),
             (DEBUG, "[EzLinks] " +:+ msg)
               :: snd (sub_pieces (fun m' => do_replace cwd self path m' tm) rest)))
  /\ (forall markdown msg,
         fst (replace cwd self path markdown) <> Raise (BrokenLink msg)).
Proof.
  split.
  - intros m tm msg H. pose proof (do_replace_broken cwd self path m tm msg H) as Hd.
    split; [exact Hd|]. intros rest.
    now rewrite (sub_pieces_hit _ m rest _ _ Hd).
  - intros markdown. apply replace_contained.
Qed.

Lemma broken_link_is_caught_witness :
  do_replace_scan Site.cwd gone_engine "a/b.md" (scanners gone_engine)
    (Site.wiki "[[Gone]]" "" "Gone" "" "") ∅
  = Raise (BrokenLink "'Gone' not found.")
  /\ do_replace Site.cwd gone_engine "a/b.md" (Site.wiki "[[Gone]]" "" "Gone" "" "") ∅
     = (Ok "[[Gone]]", [(DEBUG, "[EzLinks] 'Gone' not found.")])
  /\ replace Site.cwd gone_engine "a/b.md" "Go [[Gone]] now."
     = (Ok "Go [[Gone]] now.", [(DEBUG, "[EzLinks] 'Gone' not found.")]).
Proof.
  split; [vm_compute; reflexivity|]. split.
  - apply (proj1 (broken_link_is_caught_per_match Site.cwd gone_engine "a/b.md")
             (Site.wiki "[[Gone]]" "" "Gone" "" "") ∅ "'Gone' not found.").
    vm_compute. reflexivity.
  - vm_compute. reflexivity.
Defined.

(** C2, the code at the failing input. Without directory URLs the
    suffix is added to the result of the search before the result is
    tested: the empty result becomes [.md], no Broken-Link is raised, the
    occurrence is rewritten and the definition enters the target map; and
    on a [None] result the test for the dot raises a [TypeError], which
    [replace] lets out.  With directory URLs the same document is left as
    it is. *)
Theorem failed_search_without_directory_urls :
  search (file_map (missing_engine false)) "a/b.md" "Missing Page" = Some ""
  /\ search_file_map (missing_engine false) "a/b.md" "Missing Page" = Ok ".md"
  /\ do_replace Site.cwd (missing_engine false) "a/b.md"
       (Site.wiki "[[Missing Page]]" "" "Missing Page" "" "") ∅
     = (Ok "[Missing Page](../../../work/.md)", [])
  /\ build_target_map Site.cwd (missing_engine false) "a/b.md" missing_doc
     = (Ok {[ "lost" := {| image := false; text := "lost";
                           target := "../../../work/.md";
                           anchor := ""; title := "" |} ]}, [])
  /\ replace Site.cwd (missing_engine true) "a/b.md" missing_doc
     = (Ok missing_doc,
        [(DEBUG, "[EzLinks] 'Missing Page' not found.");
         (DEBUG, "[EzLinks] 'Missing Page' not found.")])
  /\ search (file_map gone_engine_without_directory_urls) "a/b.md" "Gone" = None
  /\ replace Site.cwd gone_engine_without_directory_urls "a/b.md" "Go [[Gone]] now."
     = (Raise (TypeError "argument of type 'NoneType' is not iterable"), []).
Proof. repeat split; vm_compute; reflexivity. Qed.





(** C4, as stated, fails: the definition [ref1] has no title, the
    occurrence has the text [click here], and the replacement is labelled
    [ref1]; the text of the occurrence is nowhere in the output.  And an
    occurrence whose target is empty is not served by the map, even when
    the empty string is a key of it: its label is its own text, whatever
    the title stored under that key. *)
Lemma untitled_definition_label_is_not_occurrence_text :
  exists tm,
    build_target_map Site.cwd untitled_engine "a/b.md" untitled_doc = (Ok tm, [])
    /\ tm !! "ref1" = Some untitled_definition
    /\ extract Site.reference_links (Site.ref "[click here][ref1]" "click here" "ref1")
       = Some {| image := false; text := "click here"; target := "ref1";
                 anchor := ""; title := "" |}
    /\ do_replace Site.cwd untitled_engine "a/b.md"
         (Site.ref "[click here][ref1]" "click here" "ref1") tm
       = (Ok "[ref1](../c/target-page.md)", [])
    /\ (forall before after,
           "[ref1](../c/target-page.md)" <> before +:+ "[click here]" +:+ after)
    /\ replace Site.cwd untitled_engine "a/b.md" untitled_doc
       = (Ok "[ref1](../c/target-page.md) [ref1]: Target Page", [])
    /\ do_replace Site.cwd anchor_engine "a/b.md"
         (Site.wiki "[[#usage|Usage]]" "" "" "usage" "Usage")
         {[ "" := {| image := false; text := ""; target := "../c/target-page.md";
                     anchor := ""; title := "My Title" |} ]}
       = (Ok "[Usage](b.md#usage)", []).
Proof.
  exists {[ "ref1" := untitled_definition ]}.
  split; [vm_compute; reflexivity|].
  split; [reflexivity|].
  split; [reflexivity|].
  split; [vm_compute; reflexivity|].
  split; [|split; vm_compute; reflexivity].
  intros before after H.
  pose proof (infix_append before "[click here]" after) as Hin.
  rewrite <- H in Hin. vm_compute in Hin. discriminate.
Qed.

(** C4, amended. An occurrence whose non-empty target is a key of the target map
    built for the document is replaced by a link whose label is the title
    of the definition when that title is not empty, and otherwise the text
    of the definition, which is the key it is stored under, that is the
    target of the occurrence. *)
Theorem map_served_label cwd self path markdown tm log m scanner link definition :
  build_target_map cwd self path markdown = (Ok tm, log) ->
  first_claim (scanners self) m = Some scanner ->
  extract scanner m = Some link ->
  Str.truthy (target link) = true ->
  tm !! target link = Some definition ->
  text definition = target link
  /\ do_replace cwd self path m tm
     = (Ok ((if image definition then "!" else "") +:+ "["
            +:+ (if Str.truthy (title definition)
                 then title definition else target link)
            +:+ "](" +:+ target definition
            +:+ (if Str.truthy (anchor definition) then "#" +:+ anchor definition else "")
            +:+ ")"), []).
Proof.
  intros Hmap Hc He Ht Hd.
  pose proof (build_target_map_keyed cwd self path markdown tm log Hmap _ _ Hd) as Hk.
  split; [exact Hk|].
  rewrite (do_replace_from_map cwd self path m tm _ _ _ Hc He Ht Hd).
  now rewrite render_title_as_text, Hk.
Qed.

Lemma map_served_label_witness :
  text untitled_definition = "ref1"
  /\ do_replace Site.cwd untitled_engine "a/b.md"
       (Site.ref "[click here][ref1]" "click here" "ref1")
       {[ "ref1" := untitled_definition ]}
     = (Ok "[ref1](../c/target-page.md)", []).
Proof.
  apply (map_served_label Site.cwd untitled_engine "a/b.md" untitled_doc
           {[ "ref1" := untitled_definition ]} []
           (Site.ref "[click here][ref1]" "click here" "ref1")
           Site.reference_links
           {| image := false; text := "click here"; target := "ref1";
              anchor := ""; title := "" |}
           untitled_definition);
    reflexivity.
Defined.

(** C5, as stated, fails: in the document [a/b.md] the link to the
    anchor [usage] of the document itself gets the target [b.md#usage],
    the name of the file of the document before the anchor, and neither
    [#usage] nor [.#usage]. *)
Lemma self_anchor_target_is_not_empty :
  extract Site.wikilinks (Site.wiki "[[#usage|Usage]]" "" "" "usage" "Usage")
  = Some {| image := false; text := "Usage"; target := "";
            anchor := "usage"; title := "" |}
  /\ PosixPath.relpath Site.cwd (PosixPath.join (root anchor_engine) ["a/b.md"])
       (abs_from anchor_engine "a/b.md") = Some "b.md"
  /\ do_replace Site.cwd anchor_engine "a/b.md"
       (Site.wiki "[[#usage|Usage]]" "" "" "usage" "Usage") ∅
     = (Ok "[Usage](b.md#usage)", [])
  /\ fst (do_replace Site.cwd anchor_engine "a/b.md"
            (Site.wiki "[[#usage|Usage]]" "" "" "usage" "Usage") ∅)
     <> Ok "[Usage](#usage)"
  /\ fst (do_replace Site.cwd anchor_engine "a/b.md"
            (Site.wiki "[[#usage|Usage]]" "" "" "usage" "Usage") ∅)
     <> Ok "[Usage](.#usage)".
Proof. repeat split; try (vm_compute; reflexivity); vm_compute; discriminate. Qed.

(** C5, amended. For every occurrence with an empty target and a
    non-empty anchor, in a document whose path ends in the name of a file,
    the target of the rewritten link is that name, the path of the
    document from its own directory, passed through [quote] and joined
    with [#] and the anchor: the link points at the document itself. *)
Theorem self_anchor_links_to_own_file cwd self path m tm scanner link :
  Str.startswith PosixPath.sep cwd = true ->
  PosixPath.names_a_file
    (PosixPath.basename (PosixPath.join (root self) [path])) = true ->
  first_claim (scanners self) m = Some scanner ->
  extract scanner m = Some link ->
  Str.truthy (target link) = false ->
  Str.truthy (anchor link) = true ->
  do_replace cwd self path m tm
  = (Ok ((if image link then "!" else "") +:+ "[" +:+ text link +:+ "]("
         +:+ UrlParse.quote (PosixPath.basename (PosixPath.join (root self) [path]))
         +:+ "#" +:+ anchor link
         +:+ (if Str.truthy (title link)
              then " " +:+ dquote +:+ title link +:+ dquote else "")
         +:+ ")"), []).
Proof.
  intros Hcwd Hname Hc He Ht Ha.
  rewrite (do_replace_resolved cwd self path m tm scanner link
             (PosixPath.join (root self) [path])
             (PosixPath.basename (PosixPath.join (root self) [path])) Hc He).
  - now rewrite render_resolved, Ha.
  - left. now repeat split.
  - now apply relpath_to_own_directory.
Qed.

Lemma self_anchor_links_to_own_file_witness :
  do_replace Site.cwd anchor_engine "a/b.md"
    (Site.wiki "[[#usage|Usage]]" "" "" "usage" "Usage") ∅
  = (Ok "[Usage](b.md#usage)", []).
Proof.
  apply (self_anchor_links_to_own_file Site.cwd anchor_engine "a/b.md"
           (Site.wiki "[[#usage|Usage]]" "" "" "usage" "Usage") ∅
           Site.wikilinks
           {| image := false; text := "Usage"; target := "";
              anchor := "usage"; title := "" |});
    reflexivity.
Defined.

(** C6, the code at the failing input. The resolved path
    [/srv/my.site/docs/guide/intro] carries no extension, directory URLs
    are off, and no suffix is added: the test is for a dot anywhere in
    the path, and the directory [my.site] has one. *)
Theorem dotted_directory_gets_no_suffix :
  use_directory_urls dotted_engine = false
  /\ PosixPath.carries_extension "/srv/my.site/docs/guide/intro" = false
  /\ search_file_map dotted_engine "index.md" "intro"
     = Ok "/srv/my.site/docs/guide/intro"
  /\ replace Site.cwd dotted_engine "index.md" "[[intro]]"
     = (Ok "[intro](guide/intro)", []).
Proof. repeat split; vm_compute; reflexivity. Qed.

(** C7, as stated, fails for an occurrence the target map serves: the
    definition [ref2] resolves to [../c/my page.md], and the occurrence is
    replaced by a link to that path with its space as it is. *)
Lemma map_served_path_is_not_encoded :
  do_replace Site.cwd titled_engine "a/b.md"
    (Site.ref "[see this][ref2]" "see this" "ref2")
    {[ "ref2" := {| image := false; text := "ref2"; target := "../c/my page.md";
                    anchor := ""; title := "My Title" |} ]}
  = (Ok "[My Title](../c/my page.md)", [])
  /\ build_target_map Site.cwd titled_engine "a/b.md" titled_doc
     = (Ok {[ "ref2" := {| image := false; text := "ref2"; target := "../c/my page.md";
                           anchor := ""; title := "My Title" |} ]}, [])
  /\ Str.contains " " "../c/my page.md" = true
  /\ Str.infix (UrlParse.quote "../c/my page.md") "[My Title](../c/my page.md)" = false
  /\ Str.infix "%20" "[My Title](../c/my page.md)" = false.
Proof. repeat split; vm_compute; reflexivity. Qed.

(** C7, amended. For every occurrence the target map does not serve,
    the replacement carries the final relative path passed through
    [quote]: no space is left in it, each space of the path is written
    %20, and a non-empty anchor follows it as it is, after a [#]. *)
Theorem resolved_path_is_percent_encoded
    cwd self path m tm scanner link resolved rel :
  first_claim (scanners self) m = Some scanner ->
  extract scanner m = Some link ->
  resolves self path tm link resolved ->
  PosixPath.relpath cwd resolved (abs_from self path) = Some rel ->
  do_replace cwd self path m tm
  = (Ok ((if image link then "!" else "") +:+ "[" +:+ text link +:+ "]("
         +:+ UrlParse.quote rel
         +:+ (if Str.truthy (anchor link) then "#" +:+ anchor link else "")
         +:+ (if Str.truthy (title link)
              then " " +:+ dquote +:+ title link +:+ dquote else "")
         +:+ ")"), [])
  /\ Str.contains " " (UrlParse.quote rel) = false
  /\ (forall a b, rel = a +:+ " " +:+ b ->
                  UrlParse.quote rel = UrlParse.quote a +:+ "%20" +:+ UrlParse.quote b).
Proof.
  intros Hc He Hres Hrel.
  rewrite (do_replace_resolved cwd self path m tm _ _ _ _ Hc He Hres Hrel).
  rewrite render_resolved. split; [reflexivity|].
  split; [apply quote_has_no_space|].
  intros a b ->. apply quote_space_between.
Qed.

Lemma resolved_path_is_percent_encoded_witness :
  do_replace Site.cwd spaced_engine "a/b.md"
    (Site.wiki "[[My Page#Set up]]" "" "My Page" "Set up" "") ∅
  = (Ok "[My Page](../c/my%20page.md#Set up)", [])
  /\ Str.contains " " (UrlParse.quote "../c/my page.md") = false
  /\ (forall a b, "../c/my page.md" = a +:+ " " +:+ b ->
                  UrlParse.quote "../c/my page.md"
                  = UrlParse.quote a +:+ "%20" +:+ UrlParse.quote b).
Proof.
  apply (resolved_path_is_percent_encoded Site.cwd spaced_engine "a/b.md"
           (Site.wiki "[[My Page#Set up]]" "" "My Page" "Set up" "") ∅
           Site.wikilinks
           {| image := false; text := "My Page"; target := "My Page";
              anchor := "Set up"; title := "" |}
           "/site/docs/c/my page.md" "../c/my page.md").
  - reflexivity.
  - reflexivity.
  - right. repeat split; reflexivity.
  - reflexivity.
Defined.

(** C8, the code at the failing input. Both target scanners claim the
    match; the loop of [_build_target_map] does not stop at the first, and
    the link of the second replaces the link of the first in the map. *)
Theorem second_claimant_overwrites_first :
  first_claim (target_scanners twice_defined_engine)
    (Site.def twice_defined_doc "ref1" "Target Page" "My Page")
  = Some Site.reference_definitions
  /\ define_claimed Site.cwd twice_defined_engine "a/b.md" Site.reference_definitions
       (Site.def twice_defined_doc "ref1" "Target Page" "My Page")
     = Ok {| image := false; text := "ref1"; target := "../c/target-page.md";
             anchor := ""; title := "My Page" |}
  /\ sc_match Site.titled_definitions
       (Site.def twice_defined_doc "ref1" "Target Page" "My Page") = true
  /\ build_target_map Site.cwd twice_defined_engine "a/b.md" twice_defined_doc
     = (Ok {[ "ref1" := {| image := false; text := "ref1"; target := "../c/my page.md";
                           anchor := ""; title := "" |} ]}, []).
Proof. repeat split; vm_compute; reflexivity. Qed.

(** C9. When every match of a document is emitted as its own text, one
    run of [replace] returns the document as it was, so a second run on
    that output, with the same path, returns the same text again. *)
Theorem replace_twice_on_unresolved cwd self path markdown tm log :
  build_target_map cwd self path markdown = (Ok tm, log) ->
  (forall m, In m (re_finditer (regex self) markdown) ->
             fst (do_replace cwd self path m tm) = Ok (group0 m)) ->
  fst (replace cwd self path markdown) = Ok markdown
  /\ forall once,
      fst (replace cwd self path markdown) = Ok once ->
      fst (replace cwd self path once) = Ok once.
Proof.
  intros Hmap Hall.
  assert (Hone : fst (replace cwd self path markdown) = Ok markdown).
  { unfold replace. rewrite Hmap, bind_ok. cbn [fst]. unfold re_sub.
    rewrite sub_pieces_verbatim by exact Hall.
    now rewrite scan_covers. }
  split; [exact Hone|].
  intros once Honce. rewrite Hone in Honce. injection Honce as <-. exact Hone.
Qed.

Lemma replace_twice_on_unresolved_witness :
  build_target_map Site.cwd gone_engine "a/b.md" "Go [[Gone]] now." = (Ok ∅, [])
  /\ (forall m,
         In m (re_finditer (regex gone_engine) "Go [[Gone]] now.") ->
         fst (do_replace Site.cwd gone_engine "a/b.md" m ∅) = Ok (group0 m))
  /\ fst (replace Site.cwd gone_engine "a/b.md" "Go [[Gone]] now.")
     = Ok "Go [[Gone]] now."
  /\ (forall once,
         fst (replace Site.cwd gone_engine "a/b.md" "Go [[Gone]] now.") = Ok once ->
         fst (replace Site.cwd gone_engine "a/b.md" once) = Ok once).
Proof.
  assert (Hmap : build_target_map Site.cwd gone_engine "a/b.md" "Go [[Gone]] now."
                 = (Ok ∅, [])) by (vm_compute; reflexivity).
  assert (Hall : forall m,
             In m (re_finditer (regex gone_engine) "Go [[Gone]] now.") ->
             fst (do_replace Site.cwd gone_engine "a/b.md" m ∅) = Ok (group0 m)).
  { intros m [<-|[]]. vm_compute. reflexivity. }
  split; [exact Hmap|]. split; [exact Hall|].
  exact (replace_twice_on_unresolved Site.cwd gone_engine "a/b.md"
           "Go [[Gone]] now." ∅ [] Hmap Hall).
Defined.

(** C10. An occurrence whose non-empty target is a key of the target
    map is replaced by the stored definition rendered with its title as
    text: image flag, label, target and anchor are the definition's, the
    target is written as it is stored (the output of [relpath], never
    passed through [quote]), and any other occurrence with the same target
    gets the same replacement. *)
Theorem map_served_occurrence_renders_definition
    cwd self path m tm scanner link definition :
  first_claim (scanners self) m = Some scanner ->
  extract scanner m = Some link ->
  Str.truthy (target link) = true ->
  tm !! target link = Some definition ->
  do_replace cwd self path m tm = (Ok (render definition true), [])
  /\ render definition true
     = (if image definition then "!" else "") +:+ "["
       +:+ (if Str.truthy (title definition) then title definition else text definition)
       +:+ "](" +:+ target definition
       +:+ (if Str.truthy (anchor definition) then "#" +:+ anchor definition else "")
       +:+ ")"
  /\ (forall m' scanner' link',
         first_claim (scanners self) m' = Some scanner' ->
         extract scanner' m' = Some link' ->
         target link' = target link ->
         do_replace cwd self path m' tm = do_replace cwd self path m tm)
  /\ (forall target_scanner m' stored,
         define_claimed cwd self path target_scanner m' = Ok stored ->
         exists resolved,
           PosixPath.relpath cwd resolved (abs_from self path) = Some (target stored)).
Proof.
  intros Hc He Ht Hd.
  pose proof (do_replace_from_map cwd self path m tm _ _ _ Hc He Ht Hd) as Hm.
  split; [exact Hm|]. split; [apply render_title_as_text|]. split.
  - intros m' sc' link' Hc' He' Heq. rewrite Hm.
    apply (do_replace_from_map cwd self path m' tm sc' link' definition Hc' He');
      now rewrite Heq.
  - intros sc m' stored. apply define_claimed_target.
Qed.

Lemma map_served_occurrence_witness :
  do_replace Site.cwd titled_engine "a/b.md"
    (Site.ref "[see this][ref2]" "see this" "ref2")
    {[ "ref2" := {| image := false; text := "ref2"; target := "../c/my page.md";
                    anchor := ""; title := "My Title" |} ]}
  = (Ok "[My Title](../c/my page.md)", []).
Proof.
  apply (map_served_occurrence_renders_definition Site.cwd titled_engine "a/b.md"
           (Site.ref "[see this][ref2]" "see this" "ref2")
           {[ "ref2" := {| image := false; text := "ref2"; target := "../c/my page.md";
                           anchor := ""; title := "My Title" |} ]}
           Site.reference_links
           {| image := false; text := "see this"; target := "ref2";
              anchor := ""; title := "" |}
           {| image := false; text := "ref2"; target := "../c/my page.md";
              anchor := ""; title := "My Title" |});
    reflexivity.
Defined.

(** ** Further properties of the engine *)

(** *** The ways a match is left as it is *)

Lemma do_replace_claimed_broken cwd self path m tm scanner msg :
  first_claim (scanners self) m = Some scanner ->
  replace_claimed cwd self path scanner m tm = Raise (BrokenLink msg) ->
  do_replace cwd self path m tm
  = (Ok (group0 m), [(DEBUG, "[EzLinks] " +:+ msg)]).
Proof.
  intros Hc Hr. apply do_replace_broken.
  now rewrite do_replace_scan_first_claim, Hc, Hr.
Qed.

(** X1. When the first scanner that claims a match extracts no link from
    it, the match is left as it is and the failure is logged at debug
    severity; the scanners registered after it are not asked. *)
Theorem failed_extraction_leaves_match cwd self path m tm scanner :
  first_claim (scanners self) m = Some scanner ->
  extract scanner m = None ->
  do_replace cwd self path m tm
  = (Ok (group0 m),
     [(DEBUG, "[EzLinks] Could not extract link from '" +:+ group0 m +:+ "'")]).
Proof.
  intros Hc He. apply (do_replace_claimed_broken _ _ _ _ _ _ _ Hc).
  unfold replace_claimed. now rewrite He.
Qed.

Lemma failed_extraction_leaves_match_witness :
  sc_match Site.wikilinks (Site.wiki "[[Target Page]]" "" "Target Page" "" "") = true
  /\ do_replace Site.cwd failing_engine "a/b.md"
       (Site.wiki "[[Target Page]]" "" "Target Page" "" "") ∅
     = (Ok "[[Target Page]]",
        [(DEBUG, "[EzLinks] Could not extract link from '[[Target Page]]'")]).
Proof.
  split; [reflexivity|].
  apply (failed_extraction_leaves_match Site.cwd failing_engine "a/b.md"
           (Site.wiki "[[Target Page]]" "" "Target Page" "" "") ∅ failing_wikilinks);
    reflexivity.
Defined.

(** X2. A link extracted with neither a target nor an anchor is not
    rewritten: the match is left as it is and the missing target is logged
    at debug severity. *)
Theorem link_without_target_or_anchor cwd self path m tm scanner link :
  first_claim (scanners self) m = Some scanner ->
  extract scanner m = Some link ->
  Str.truthy (target link) = false ->
  Str.truthy (anchor link) = false ->
  do_replace cwd self path m tm
  = (Ok (group0 m), [(DEBUG, "[EzLinks] No target for link '" +:+ group0 m +:+ "'")]).
Proof.
  intros Hc He Ht Ha. apply (do_replace_claimed_broken _ _ _ _ _ _ _ Hc).
  unfold replace_claimed. now rewrite He, Ht, Ha.
Qed.

Lemma link_without_target_or_anchor_witness :
  do_replace Site.cwd untargeted_engine "a/b.md"
    (Site.def "[nowhere]:" "nowhere" "" "") ∅
  = (Ok "[nowhere]:", [(DEBUG, "[EzLinks] No target for link '[nowhere]:'")]).
Proof.
  apply (link_without_target_or_anchor Site.cwd untargeted_engine "a/b.md"
           (Site.def "[nowhere]:" "nowhere" "" "") ∅ Site.reference_definitions
           {| image := false; text := "nowhere"; target := "";
              anchor := ""; title := "" |});
    reflexivity.
Defined.

(** X3. With directory URLs, an occurrence whose target is no key of the
    target map and for which the search through the file map gives [None]
    or the empty string is left as it is, and the target is logged at
    debug severity as not found. *)
Theorem failed_search_leaves_match cwd self path m tm scanner link :
  use_directory_urls self = true ->
  first_claim (scanners self) m = Some scanner ->
  extract scanner m = Some link ->
  Str.truthy (target link) = true ->
  tm !! target link = None ->
  search (file_map self) path (target link) = None
  \/ search (file_map self) path (target link) = Some "" ->
  do_replace cwd self path m tm
  = (Ok (group0 m), [(DEBUG, "[EzLinks] '" +:+ target link +:+ "' not found.")]).
Proof.
  intros Hd Hc He Ht Hm Hs. apply (do_replace_claimed_broken _ _ _ _ _ _ _ Hc).
  unfold replace_claimed. rewrite He, Ht, Hm. cbn [negb].
  now rewrite (search_failure_with_directory_urls self path _ Hd Hs).
Qed.

Lemma failed_search_leaves_match_witness :
  do_replace Site.cwd gone_engine "a/b.md" (Site.wiki "[[Gone]]" "" "Gone" "" "") ∅
  = (Ok "[[Gone]]", [(DEBUG, "[EzLinks] 'Gone' not found.")]).
Proof.
  apply (failed_search_leaves_match Site.cwd gone_engine "a/b.md"
           (Site.wiki "[[Gone]]" "" "Gone" "" "") ∅ Site.wikilinks
           {| image := false; text := "Gone"; target := "Gone";
              anchor := ""; title := "" |});
    try reflexivity.
  left. reflexivity.
Defined.

(** *** The two passes over a document *)

Lemma build_target_scan_unclaimed cwd self path scs m tm :
  first_claim scs m = None ->
  build_target_scan cwd self path scs m tm = (tm, Ok tt).
Proof.
  induction scs as [|sc scs IH]; [reflexivity|].
  unfold first_claim. cbn. destruct (sc_match sc m); [discriminate|]. exact IH.
Qed.

Lemma build_target_loop_unclaimed cwd self path ms tm :
  (forall m, In m ms -> first_claim (target_scanners self) m = None) ->
  build_target_loop cwd self path ms tm = (Ok tm, []).
Proof.
  induction ms as [|m ms IH]; intros H; [reflexivity|].
  cbn [build_target_loop].
  rewrite build_target_scan_unclaimed by (apply H; now left).
  cbn. rewrite IH; [reflexivity|]. intros m' Hm'. apply H. now right.
Qed.

Lemma sub_pieces_untouched repl ps :
  (forall m, In m (hits ps) -> repl m = (Ok (group0 m), [])) ->
  sub_pieces repl ps = (Ok (covered ps), []).
Proof.
  induction ps as [|[s|m] ps IH]; intros H.
  - reflexivity.
  - rewrite sub_pieces_gap, IH by exact H. reflexivity.
  - rewrite (sub_pieces_hit repl m ps (group0 m) []) by (apply H; now left).
    rewrite IH; [reflexivity|]. intros m' Hm'. apply H. now right.
Qed.

(** X4. A document in which no scanner claims a match, of either
    pattern, comes back from [replace] as it is, and nothing is logged;
    so it does from an engine without scanners. *)
Theorem unclaimed_document_is_unchanged cwd self path markdown :
  (forall m, In m (re_finditer (target_regex self) markdown) ->
             first_claim (target_scanners self) m = None) ->
  (forall m, In m (re_finditer (regex self) markdown) ->
             first_claim (scanners self) m = None) ->
  replace cwd self path markdown = (Ok markdown, []).
Proof.
  intros Htargets Hmatches. unfold replace, build_target_map.
  rewrite build_target_loop_unclaimed by exact Htargets.
  rewrite bind_ok. unfold re_sub. rewrite sub_pieces_untouched.
  - cbn. now rewrite scan_covers.
  - intros m Hm. apply do_replace_fell_through.
    now rewrite do_replace_scan_first_claim, (Hmatches m Hm).
Qed.

Lemma unclaimed_document_is_unchanged_witness :
  replace Site.cwd quiet_engine "a/b.md" "Run `make` twice."
  = (Ok "Run `make` twice.", []).
Proof.
  apply (unclaimed_document_is_unchanged Site.cwd quiet_engine "a/b.md"
           "Run `make` twice.").
  - intros m [].
  - intros m [<-|[]]. reflexivity.
Defined.

Lemma concat_cons (x : string) (xs : list string) :
  String.concat "" (x :: xs) = x +:+ String.concat "" xs.
Proof. destruct xs; cbn [String.concat]; [now rewrite append_empty_r|reflexivity]. Qed.

Lemma sub_pieces_emitted cwd self path tm ps out :
  fst (sub_pieces (fun m => do_replace cwd self path m tm) ps) = Ok out ->
  exists outs,
    Forall2 (emitted cwd self path tm) ps outs /\ out = String.concat "" outs.
Proof.
  revert out. induction ps as [|[s|m] ps IH]; intros out.
  - intros [= <-]. exists []. split; [constructor|reflexivity].
  - rewrite sub_pieces_gap. cbn [fst]. intros H.
    apply prepend_ok_inv in H as (out' & H & ->).
    destruct (IH _ H) as (outs & Hall & ->).
    exists (s :: outs). split; [now constructor|]. now rewrite concat_cons.
  - rewrite fst_sub_pieces_hit.
    destruct (fst (do_replace cwd self path m tm)) as [r|e] eqn:Hm; [|discriminate].
    intros H. apply prepend_ok_inv in H as (out' & H & ->).
    destruct (IH _ H) as (outs & Hall & ->).
    exists (r :: outs). split; [now constructor|]. now rewrite concat_cons.
Qed.

(** X5. The text [replace] returns is the document piece by piece: the
    text between two matches of the pattern as it is, and in the place of
    each match what [_do_replace] returns for it with the target map of
    the document. *)
Theorem replace_emits_piece_by_piece cwd self path markdown out log :
  replace cwd self path markdown = (Ok out, log) ->
  exists tm outs,
    fst (build_target_map cwd self path markdown) = Ok tm
    /\ Forall2 (emitted cwd self path tm) (scan (regex self) markdown) outs
    /\ markdown = covered (scan (regex self) markdown)
    /\ out = String.concat "" outs.
Proof.
  intros H. unfold replace, re_sub in H.
  apply bind_ok_inv in H as (tm & l1 & l2 & Hmap & Hsub & _).
  destruct (sub_pieces_emitted cwd self path tm (scan (regex self) markdown) out)
    as (outs & Hall & ->); [now rewrite Hsub|].
  exists tm, outs. rewrite Hmap. repeat split; try assumption.
  now rewrite scan_covers.
Qed.

Lemma replace_emits_piece_by_piece_witness :
  exists tm outs,
    fst (build_target_map Site.cwd code_engine "a/b.md" code_doc) = Ok tm
    /\ Forall2 (emitted Site.cwd code_engine "a/b.md" tm)
         (scan (regex code_engine) code_doc) outs
    /\ code_doc = covered (scan (regex code_engine) code_doc)
    /\ "Use `[[Target Page]]` or [Target Page](../c/target-page.md)."
       = String.concat "" outs.
Proof.
  apply (replace_emits_piece_by_piece Site.cwd code_engine "a/b.md" code_doc _ []).
  vm_compute. reflexivity.
Defined.

(** *** What is logged *)

Lemma debug_records_bind {A B} (m : M A) (f : A -> M B) :
  Forall ezlinks_debug_record (snd m) ->
  (forall a, Forall ezlinks_debug_record (snd (f a))) ->
  Forall ezlinks_debug_record (snd (bind m f)).
Proof.
  intros Hm Hf. destruct m as [[a|e] l]; [|exact Hm].
  rewrite bind_ok. cbn [snd] in *. apply Forall_app. split; [exact Hm|apply Hf].
Qed.

Lemma debug_record_tagged msg : ezlinks_debug_record (DEBUG, "[EzLinks] " +:+ msg).
Proof. split; [reflexivity|]. apply has_prefix_append. Qed.

Lemma debug_records_try {A} (o : outcome A) (handler : string -> M A) :
  (forall msg, Forall ezlinks_debug_record (snd (handler msg))) ->
  Forall ezlinks_debug_record (snd (try_except_BrokenLink (lift o) handler)).
Proof.
  intros Hh. destruct o as [a|[msg| |]]; cbn; try constructor.
  specialize (Hh msg). now destruct (handler msg).
Qed.

Lemma do_replace_debug_records cwd self path m tm :
  Forall ezlinks_debug_record (snd (do_replace cwd self path m tm)).
Proof.
  unfold do_replace. apply debug_records_bind.
  - apply debug_records_try. intros msg. cbn.
    repeat constructor; apply has_prefix_append.
  - intros [out|]; constructor.
Qed.

Lemma sub_pieces_debug_records repl ps :
  (forall m, Forall ezlinks_debug_record (snd (repl m))) ->
  Forall ezlinks_debug_record (snd (sub_pieces repl ps)).
Proof.
  intros Hrepl. induction ps as [|[s|m] ps IH]; cbn [sub_pieces].
  - constructor.
  - apply debug_records_bind; [exact IH|]. intros; constructor.
  - apply debug_records_bind; [apply Hrepl|]. intros r.
    apply debug_records_bind; [exact IH|]. intros; constructor.
Qed.

Lemma build_target_loop_debug_records cwd self path ms tm :
  Forall ezlinks_debug_record (snd (build_target_loop cwd self path ms tm)).
Proof.
  revert tm. induction ms as [|m ms IH]; intros tm; cbn [build_target_loop].
  - constructor.
  - destruct (build_target_scan cwd self path (target_scanners self) m tm) as [tm' r].
    apply debug_records_bind; [|intros; apply IH].
    apply debug_records_try. intros msg. cbn.
    repeat constructor; apply has_prefix_append.
Qed.

(** X6. Whatever the document, and whether it returns or raises, every
    record [replace] writes to the logger is written at debug severity
    and starts with the tag [[EzLinks]]. *)
Theorem replace_logs_at_debug_only cwd self path markdown :
  Forall ezlinks_debug_record (snd (replace cwd self path markdown)).
Proof.
  unfold replace, build_target_map, re_sub. apply debug_records_bind.
  - apply build_target_loop_debug_records.
  - intros tm. apply sub_pieces_debug_records. intros m.
    apply do_replace_debug_records.
Qed.

Lemma relpath_of_nonempty cwd p start :
  Str.truthy p = true -> exists r, PosixPath.relpath cwd p start = Some r.
Proof.
  intros Hp. unfold PosixPath.relpath. rewrite Hp. cbn [negb].
  match goal with |- context [match ?l with [] => _ | _ => _ end] => destruct l end;
    eauto.
Qed.

(** *** The paths the engine writes *)

Lemma join2_relative a b :
  relative_path a -> relative_path b -> relative_path (PosixPath.join2 a b).
Proof.
  intros [Ha Has] [Hb Hbs]. unfold PosixPath.join2. rewrite Hbs.
  destruct (negb (Str.truthy a) || Str.endswith PosixPath.sep a);
    (split; [destruct a; [discriminate|reflexivity]|now rewrite startswith_append]).
Qed.

Lemma join_relative a p :
  relative_path a -> Forall relative_path p -> relative_path (PosixPath.join a p).
Proof.
  intros Ha Hp. revert a Ha. unfold PosixPath.join.
  induction Hp as [|b p Hb _ IH]; intros a Ha; [exact Ha|].
  cbn [fold_left]. apply IH. now apply join2_relative.
Qed.

Lemma components_relative_paths cwd q :
  Forall relative_path (PosixPath.components cwd q).
Proof.
  unfold PosixPath.components. apply List.Forall_forall. intros e He.
  apply List.filter_In in He as [He Ht]. split; [exact Ht|].
  pose proof (split_pieces_without_sep PosixPath.sep (PosixPath.abspath cwd q)) as Hs.
  rewrite List.Forall_forall in Hs. specialize (Hs e He).
  destruct (Str.startswith PosixPath.sep e) eqn:Hst; [|reflexivity].
  apply startswith_contains in Hst. congruence.
Qed.

Lemma repeat_relative_paths n : Forall relative_path (repeat ".." n).
Proof. induction n as [|n IH]; cbn; constructor; [now split|exact IH]. Qed.

(** What [relpath] returns is never empty and never absolute. *)
Lemma relpath_is_relative cwd p start r :
  PosixPath.relpath cwd p start = Some r -> relative_path r.
Proof.
  unfold PosixPath.relpath. destruct (negb (Str.truthy p)); [discriminate|].
  set (i := PosixPath.common_prefix_len _ _).
  set (n := length (PosixPath.components cwd start) - i).
  assert (Hall : Forall relative_path
                   (repeat ".." n ++ skipn i (PosixPath.components cwd p))).
  { apply Forall_app. split; [apply repeat_relative_paths|].
    apply Forall_drop, components_relative_paths. }
  destruct (repeat ".." n ++ skipn i (PosixPath.components cwd p)) as [|a rest].
  - intros [= <-]. now split.
  - intros [= <-]. inversion Hall; subst. now apply join_relative.
Qed.

Lemma quote_relative r : relative_path r -> relative_path (UrlParse.quote r).
Proof.
  intros [Ht Hs]. destruct r as [|c r]; [discriminate|].
  cbn [UrlParse.quote]. unfold UrlParse.quote_byte.
  destruct (UrlParse.safe c); rewrite append_cons; split; try reflexivity.
  exact Hs.
Qed.

(** X8. When the handling of an occurrence the engine resolves itself,
    to a path that is not empty, returns, the occurrence is replaced by
    its link with the percent-encoded path from the directory of the
    document to the resolved path as target, nothing is logged, and that
    target is a relative path: not empty, and not starting with a slash,
    whatever the file map gave. *)
Theorem rewritten_target_is_relative cwd self path m tm scanner link resolved out log :
  first_claim (scanners self) m = Some scanner ->
  extract scanner m = Some link ->
  resolves self path tm link resolved ->
  Str.truthy resolved = true ->
  do_replace cwd self path m tm = (Ok out, log) ->
  exists rel,
    PosixPath.relpath cwd resolved (abs_from self path) = Some rel
    /\ out = render (set_target link (UrlParse.quote rel)) false
    /\ log = []
    /\ target (set_target link (UrlParse.quote rel)) = UrlParse.quote rel
    /\ relative_path rel
    /\ relative_path (UrlParse.quote rel).
Proof.
  intros Hc He Hres Ht Hret.
  destruct (relpath_of_nonempty cwd resolved (abs_from self path) Ht) as [rel Hrel].
  exists rel. split; [exact Hrel|].
  rewrite (do_replace_resolved cwd self path m tm _ _ _ _ Hc He Hres Hrel) in Hret.
  injection Hret as <- <-.
  pose proof (relpath_is_relative _ _ _ _ Hrel) as Hr.
  repeat split; try apply Hr; now apply quote_relative.
Qed.

Lemma rewritten_target_is_relative_witness :
  do_replace Site.cwd spaced_engine "a/b.md"
    (Site.wiki "[[My Page#Set up]]" "" "My Page" "Set up" "") ∅
  = (Ok "[My Page](../c/my%20page.md#Set up)", [])
  /\ exists rel,
      PosixPath.relpath Site.cwd "/site/docs/c/my page.md"
        (abs_from spaced_engine "a/b.md") = Some rel
      /\ "[My Page](../c/my%20page.md#Set up)"
         = render (set_target
                     {| image := false; text := "My Page"; target := "My Page";
                        anchor := "Set up"; title := "" |}
                     (UrlParse.quote rel)) false
      /\ @nil log_record = []
      /\ target (set_target
                   {| image := false; text := "My Page"; target := "My Page";
                      anchor := "Set up"; title := "" |} (UrlParse.quote rel))
         = UrlParse.quote rel
      /\ relative_path rel
      /\ relative_path (UrlParse.quote rel).
Proof.
  split; [vm_compute; reflexivity|].
  apply (rewritten_target_is_relative Site.cwd spaced_engine "a/b.md"
           (Site.wiki "[[My Page#Set up]]" "" "My Page" "Set up" "") ∅
           Site.wikilinks
           {| image := false; text := "My Page"; target := "My Page";
              anchor := "Set up"; title := "" |}
           "/site/docs/c/my page.md").
  - reflexivity.
  - reflexivity.
  - right. repeat split; reflexivity.
  - reflexivity.
  - vm_compute. reflexivity.
Defined.

Lemma all_chars_append p s t :
  all_chars p (s +:+ t) = all_chars p s && all_chars p t.
Proof.
  induction s as [|c s IH]; [reflexivity|].
  rewrite append_cons. cbn. now rewrite IH, andb_assoc.
Qed.

Lemma quote_byte_alphabet c :
  all_chars (fun d => UrlParse.safe d || Ascii.eqb d "%") (UrlParse.quote_byte c) = true.
Proof. destruct c as [[] [] [] [] [] [] [] []]; reflexivity. Qed.

(** X9. What [quote] returns is made of unreserved characters, slashes
    and percent signs alone, so that no space, parenthesis, double quote
    or [#] of a path reaches the link; and a path made of unreserved
    characters and slashes alone is returned as it is. *)
Theorem quote_alphabet s :
  all_chars (fun c => UrlParse.safe c || Ascii.eqb c "%") (UrlParse.quote s) = true
  /\ (all_chars UrlParse.safe s = true -> UrlParse.quote s = s).
Proof.
  split.
  - induction s as [|c s IH]; [reflexivity|].
    cbn [UrlParse.quote]. now rewrite all_chars_append, quote_byte_alphabet, IH.
  - induction s as [|c s IH]; [reflexivity|]. cbn [all_chars UrlParse.quote].
    intros [Hc Hs]%andb_true_iff. unfold UrlParse.quote_byte.
    now rewrite Hc, append_cons, append_empty_l, (IH Hs).
Qed.

Lemma quote_alphabet_witness :
  all_chars (fun c => UrlParse.safe c || Ascii.eqb c "%")
    (UrlParse.quote "../c/target-page.md") = true
  /\ UrlParse.quote "../c/target-page.md" = "../c/target-page.md".
Proof.
  destruct (quote_alphabet "../c/target-page.md") as [Halpha Hsame].
  split; [exact Halpha|]. apply Hsame. reflexivity.
Defined.

(** *** The target map *)

Section TargetMapEntries.

Variable cwd : string.
Variable self : EzLinksReplacer.
Variable path : string.

Lemma build_target_scan_defined ms all scs m tm :
  In m ms ->
  (forall scanner, In scanner scs -> In scanner all) ->
  (forall k d, tm !! k = Some d -> defined_by cwd self path ms all d) ->
  forall k d,
    fst (build_target_scan cwd self path scs m tm) !! k = Some d ->
    defined_by cwd self path ms all d.
Proof.
  intros Hm. revert tm. induction scs as [|sc scs IH]; intros tm Hscs Htm; [exact Htm|].
  cbn [build_target_scan]. destruct (sc_match sc m) eqn:Hclaim.
  - destruct (define_claimed cwd self path sc m) as [link|e] eqn:Hdef; [|exact Htm].
    apply IH; [intros; apply Hscs; now right|].
    intros k d. rewrite lookup_insert. case_decide.
    + intros [= <-]. exists m, sc. repeat split; try assumption.
      apply Hscs. now left.
    + apply Htm.
  - apply IH; [intros; apply Hscs; now right|exact Htm].
Qed.

Lemma build_target_loop_step m rest tm tm' log :
  build_target_loop cwd self path (m :: rest) tm = (Ok tm', log) ->
  exists log',
    build_target_loop cwd self path rest
      (fst (build_target_scan cwd self path (target_scanners self) m tm))
    = (Ok tm', log').
Proof.
  cbn [build_target_loop].
  destruct (build_target_scan cwd self path (target_scanners self) m tm) as [tm1 r].
  intros H. apply bind_ok_inv in H as (_ & l1 & l2 & _ & H & _). eauto.
Qed.

Lemma build_target_loop_defined all ms tm tm' log :
  (forall m, In m ms -> In m all) ->
  (forall k d, tm !! k = Some d -> defined_by cwd self path all (target_scanners self) d) ->
  build_target_loop cwd self path ms tm = (Ok tm', log) ->
  forall k d, tm' !! k = Some d -> defined_by cwd self path all (target_scanners self) d.
Proof.
  revert tm log. induction ms as [|m ms IH]; intros tm log Hms Htm.
  - cbn. now intros [= <- _].
  - intros H. apply build_target_loop_step in H as [log' H].
    eapply IH; [intros; apply Hms; now right| |exact H].
    apply build_target_scan_defined; [apply Hms; now left|auto|exact Htm].
Qed.

Lemma build_target_scan_keeps_keys scs m tm k :
  is_Some (tm !! k) ->
  is_Some (fst (build_target_scan cwd self path scs m tm) !! k).
Proof.
  revert tm. induction scs as [|sc scs IH]; intros tm Hk; [exact Hk|].
  cbn [build_target_scan]. destruct (sc_match sc m); [|now apply IH].
  destruct (define_claimed cwd self path sc m) as [link|e]; [|exact Hk].
  apply IH. rewrite lookup_insert. case_decide; [eauto|exact Hk].
Qed.

Lemma build_target_loop_keeps_keys ms tm tm' log k :
  build_target_loop cwd self path ms tm = (Ok tm', log) ->
  is_Some (tm !! k) -> is_Some (tm' !! k).
Proof.
  revert tm log. induction ms as [|m ms IH]; intros tm log.
  - cbn. now intros [= <- _].
  - intros H Hk. apply build_target_loop_step in H as [log' H].
    apply (IH _ _ H). now apply build_target_scan_keeps_keys.
Qed.

Lemma build_target_scan_stores scs m tm scanner d :
  first_claim scs m = Some scanner ->
  define_claimed cwd self path scanner m = Ok d ->
  is_Some (fst (build_target_scan cwd self path scs m tm) !! text d).
Proof.
  revert tm. induction scs as [|sc scs IH]; intros tm; [discriminate|].
  unfold first_claim. cbn [find build_target_scan].
  destruct (sc_match sc m).
  - intros [= ->] Hd. rewrite Hd.
    apply build_target_scan_keeps_keys. rewrite lookup_insert_eq. eauto.
  - apply IH.
Qed.

Lemma build_target_loop_stores ms tm tm' log m scanner d :
  build_target_loop cwd self path ms tm = (Ok tm', log) ->
  In m ms ->
  first_claim (target_scanners self) m = Some scanner ->
  define_claimed cwd self path scanner m = Ok d ->
  is_Some (tm' !! text d).
Proof.
  revert tm log. induction ms as [|m0 ms IH]; intros tm log H Hin Hc Hd; [easy|].
  apply build_target_loop_step in H as [log' H].
  destruct Hin as [->|Hin].
  - apply (build_target_loop_keeps_keys _ _ _ _ _ H).
    exact (build_target_scan_stores _ _ _ _ _ Hc Hd).
  - exact (IH _ _ H Hin Hc Hd).
Qed.

End TargetMapEntries.

(** X10. Every entry of the target map [_build_target_map] returns is a
    link that a target scanner defined for a match of the target pattern
    it claimed; it is stored under its own text, and its target is a
    relative path: not empty, not starting with a slash. *)
Theorem target_map_entries_are_definitions cwd self path markdown tm log k d :
  build_target_map cwd self path markdown = (Ok tm, log) ->
  tm !! k = Some d ->
  text d = k
  /\ relative_path (target d)
  /\ exists m scanner,
      In m (re_finditer (target_regex self) markdown)
      /\ In scanner (target_scanners self)
      /\ sc_match scanner m = true
      /\ define_claimed cwd self path scanner m = Ok d.
Proof.
  intros Hmap Hk.
  assert (Hdef : defined_by cwd self path
                   (re_finditer (target_regex self) markdown) (target_scanners self) d).
  { apply (build_target_loop_defined cwd self path
             (re_finditer (target_regex self) markdown)
             (re_finditer (target_regex self) markdown) ∅ tm log) with (k := k);
      [auto| |exact Hmap|exact Hk].
    intros k' d'. now rewrite lookup_empty. }
  split; [exact (build_target_map_keyed cwd self path markdown tm log Hmap _ _ Hk)|].
  split; [|exact Hdef].
  destruct Hdef as (m & sc & _ & _ & _ & Hd).
  destruct (define_claimed_target cwd self path sc m d Hd) as [resolved Hrel].
  exact (relpath_is_relative _ _ _ _ Hrel).
Qed.

Lemma target_map_entries_are_definitions_witness :
  text untitled_definition = "ref1"
  /\ relative_path (target untitled_definition)
  /\ exists m scanner,
      In m (re_finditer (target_regex untitled_engine) untitled_doc)
      /\ In scanner (target_scanners untitled_engine)
      /\ sc_match scanner m = true
      /\ define_claimed Site.cwd untitled_engine "a/b.md" scanner m
         = Ok untitled_definition.
Proof.
  apply (target_map_entries_are_definitions Site.cwd untitled_engine "a/b.md"
           untitled_doc {[ "ref1" := untitled_definition ]} [] "ref1");
    reflexivity.
Defined.

(** X11. When the target map is built, every match of the target pattern
    for which the first target scanner that claims it defines a link has
    an entry under the text of that link, wherever in the document the
    match is, and whatever Broken-Links the other matches raise. *)
Theorem resolved_definition_is_stored cwd self path markdown tm log m scanner d :
  build_target_map cwd self path markdown = (Ok tm, log) ->
  In m (re_finditer (target_regex self) markdown) ->
  first_claim (target_scanners self) m = Some scanner ->
  define_claimed cwd self path scanner m = Ok d ->
  exists stored, tm !! text d = Some stored /\ text stored = text d.
Proof.
  intros Hmap Hin Hc Hd.
  destruct (build_target_loop_stores cwd self path _ _ _ _ _ _ _ Hmap Hin Hc Hd)
    as [stored Hs].
  exists stored. split; [exact Hs|].
  exact (build_target_map_keyed cwd self path markdown tm log Hmap _ _ Hs).
Qed.

Lemma resolved_definition_is_stored_witness :
  exists stored,
    ({[ "ref2" := {| image := false; text := "ref2"; target := "../c/my page.md";
                     anchor := ""; title := "My Title" |} ]} : gmap string Link)
      !! "ref2" = Some stored
    /\ text stored = "ref2".
Proof.
  apply (resolved_definition_is_stored Site.cwd titled_engine "a/b.md" titled_doc
           {[ "ref2" := {| image := false; text := "ref2"; target := "../c/my page.md";
                           anchor := ""; title := "My Title" |} ]} []
           (Site.def "[ref2]: My Page (My Title)" "ref2" "My Page" "My Title")
           Site.reference_definitions
           {| image := false; text := "ref2"; target := "../c/my page.md";
              anchor := ""; title := "My Title" |}).
  - reflexivity.
  - left. reflexivity.
  - reflexivity.
  - reflexivity.
Defined.

(** X12. A Broken-Link raised while the target map is built is caught
    within its match: it is logged at debug severity, the entries stored
    so far stay in the map, and the building goes on with the next match
    of the target pattern. *)
Theorem broken_definition_is_skipped cwd self path m rest tm tm' msg :
  build_target_scan cwd self path (target_scanners self) m tm
  = (tm', Raise (BrokenLink msg)) ->
  build_target_loop cwd self path (m :: rest) tm
  = (fst (build_target_loop cwd self path rest tm'),
     (DEBUG, "[EzLinks] " +:+ msg) :: snd (build_target_loop cwd self path rest tm'))
  /\ forall k, is_Some (tm !! k) -> is_Some (tm' !! k).
Proof.
  intros H. split.
  - cbn [build_target_loop]. rewrite H. cbn.
    now destruct (build_target_loop cwd self path rest tm') as [r l].
  - intros k Hk.
    pose proof (build_target_scan_keeps_keys cwd self path
                  (target_scanners self) m tm k Hk) as Hkeep.
    now rewrite H in Hkeep.
Qed.

Lemma broken_definition_is_skipped_witness :
  build_target_loop Site.cwd (missing_engine true) "a/b.md"
    [Site.def "[lost]: Missing Page" "lost" "Missing Page" ""] ∅
  = (fst (build_target_loop Site.cwd (missing_engine true) "a/b.md" [] ∅),
     (DEBUG, "[EzLinks] " +:+ "'Missing Page' not found.")
       :: snd (build_target_loop Site.cwd (missing_engine true) "a/b.md" [] ∅))
  /\ forall k, is_Some ((∅ : gmap string Link) !! k) ->
               is_Some ((∅ : gmap string Link) !! k).
Proof.
  apply (broken_definition_is_skipped Site.cwd (missing_engine true) "a/b.md"
           (Site.def "[lost]: Missing Page" "lost" "Missing Page" "") [] ∅ ∅
           "'Missing Page' not found.").
  reflexivity.
Defined.

(** X13. A definition with an empty target and a non-empty anchor, in a
    document whose path ends in the name of a file, is stored with that
    name as its target, as [relpath] gives it and not passed through
    [quote]: it points at the document itself. *)
Theorem self_anchor_definition cwd self path scanner m link :
  Str.startswith PosixPath.sep cwd = true ->
  PosixPath.names_a_file
    (PosixPath.basename (PosixPath.join (root self) [path])) = true ->
  extract scanner m = Some link ->
  Str.truthy (target link) = false ->
  Str.truthy (anchor link) = true ->
  define_claimed cwd self path scanner m
  = Ok (set_target link (PosixPath.basename (PosixPath.join (root self) [path]))).
Proof.
  intros Hcwd Hname He Ht Ha. unfold define_claimed. rewrite He, Ht, Ha.
  cbn [negb obind target set_target]. unfold relpath_from, abs_from.
  now rewrite (relpath_to_own_directory cwd Hcwd _ Hname).
Qed.

Lemma self_anchor_definition_witness :
  define_claimed Site.cwd anchor_engine "a/my notes.md" Site.wikilinks
    (Site.wiki "[[#usage|Usage]]" "" "" "usage" "Usage")
  = Ok {| image := false; text := "Usage"; target := "my notes.md";
          anchor := "usage"; title := "" |}.
Proof.
  apply (self_anchor_definition Site.cwd anchor_engine "a/my notes.md" Site.wikilinks
           (Site.wiki "[[#usage|Usage]]" "" "" "usage" "Usage")
           {| image := false; text := "Usage"; target := "";
              anchor := "usage"; title := "" |});
    reflexivity.
Defined.

(** X14. The two passes resolve alike: when a scanner defines a link for
    a match, and the target map does not serve that match, the
    replacement for the match is that link, rendered with its own text and
    with its target passed through [quote]. *)
Theorem replacement_follows_definition cwd self path m tm scanner d :
  first_claim (scanners self) m = Some scanner ->
  define_claimed cwd self path scanner m = Ok d ->
  (forall link, extract scanner m = Some link ->
                Str.truthy (target link) = true -> tm !! target link = None) ->
  do_replace cwd self path m tm
  = (Ok (render (set_target d (UrlParse.quote (target d))) false), []).
Proof.
  intros Hc Hd Hmap. apply do_replace_returned.
  rewrite do_replace_scan_first_claim, Hc.
  unfold define_claimed in Hd. unfold replace_claimed.
  destruct (extract scanner m) as [link|]; [|discriminate].
  specialize (Hmap link eq_refl).
  destruct (Str.truthy (target link)); cbn [negb] in *.
  - rewrite Hmap by reflexivity.
    destruct (search_file_map self path (target link)) as [s|e]; [|discriminate].
    cbn [obind target set_target] in *.
    destruct (relpath_from cwd self path s) as [rel|e]; [|discriminate].
    cbn [obind] in *. now injection Hd as <-.
  - destruct (Str.truthy (anchor link)); [|discriminate].
    cbn [obind target set_target] in *.
    destruct (relpath_from cwd self path _) as [rel|e]; [|discriminate].
    cbn [obind] in *. now injection Hd as <-.
Qed.

Lemma replacement_follows_definition_witness :
  do_replace Site.cwd spaced_engine "a/b.md"
    (Site.wiki "[[My Page#Set up]]" "" "My Page" "Set up" "") ∅
  = (Ok "[My Page](../c/my%20page.md#Set up)", []).
Proof.
  apply (replacement_follows_definition Site.cwd spaced_engine "a/b.md"
           (Site.wiki "[[My Page#Set up]]" "" "My Page" "Set up" "") ∅
           Site.wikilinks
           {| image := false; text := "My Page"; target := "../c/my page.md";
              anchor := "Set up"; title := "" |}).
  - reflexivity.
  - reflexivity.
  - intros link _ _. apply lookup_empty.
Defined.

(** *** Registering scanners *)

Lemma first_claim_app scs scanner m :
  first_claim (scs ++ [scanner]) m
  = match first_claim scs m with
    | Some claimant => Some claimant
    | None => if sc_match scanner m then Some scanner else None
    end.
Proof.
  unfold first_claim. induction scs as [|sc scs IH]; [reflexivity|].
  cbn. now destruct (sc_match sc m).
Qed.

(** X15. A scanner registered with [add_scanner] is asked after the ones
    registered before it: a match one of those claims is replaced as
    before, and the new scanner gets the matches none of them claims.
    The target map does not depend on it; and a scanner registered with
    [add_target_scanner] changes nothing in how a match is replaced with
    a given target map. *)
Theorem registered_scanner_is_asked_last cwd self path scanner :
  (forall m tm claimant,
      first_claim (scanners self) m = Some claimant ->
      do_replace cwd (add_scanner self scanner) path m tm
      = do_replace cwd self path m tm)
  /\ (forall m,
         first_claim (scanners self) m = None ->
         first_claim (scanners (add_scanner self scanner)) m
         = if sc_match scanner m then Some scanner else None)
  /\ (forall markdown,
         build_target_map cwd (add_scanner self scanner) path markdown
         = build_target_map cwd self path markdown)
  /\ (forall m tm,
         do_replace cwd (add_target_scanner self scanner) path m tm
         = do_replace cwd self path m tm).
Proof.
  split; [|split; [|split]].
  - intros m tm claimant Hc. unfold do_replace.
    rewrite !do_replace_scan_first_claim. cbn [scanners add_scanner].
    now rewrite first_claim_app, Hc.
  - intros m Hc. cbn [scanners add_scanner]. now rewrite first_claim_app, Hc.
  - reflexivity.
  - reflexivity.
Qed.

Lemma registered_scanner_is_asked_last_witness :
  do_replace Site.cwd (add_scanner gone_engine failing_wikilinks) "a/b.md"
    (Site.wiki "[[Gone]]" "" "Gone" "" "") ∅
  = do_replace Site.cwd gone_engine "a/b.md" (Site.wiki "[[Gone]]" "" "Gone" "" "") ∅
  /\ first_claim (scanners (add_scanner gone_engine Site.reference_definitions))
       (Site.def "[ref1]: Target Page" "ref1" "Target Page" "")
     = Some Site.reference_definitions.
Proof.
  destruct (registered_scanner_is_asked_last Site.cwd gone_engine "a/b.md"
              failing_wikilinks) as [Hold _].
  destruct (registered_scanner_is_asked_last Site.cwd gone_engine "a/b.md"
              Site.reference_definitions) as (_ & Hnew & _).
  split.
  - apply (Hold _ _ Site.wikilinks). reflexivity.
  - apply (Hnew (Site.def "[ref1]: Target Page" "ref1" "Target Page" "")). reflexivity.
Defined.

(** *** The suffix *)

Lemma search_file_map_without_directory_urls self path link_target s :
  use_directory_urls self = false ->
  search (file_map self) path link_target = Some s ->
  search_file_map self path link_target
  = Ok (if Str.contains "." s then s else s +:+ ".md")
  /\ Str.truthy (if Str.contains "." s then s else s +:+ ".md") = true.
Proof.
  intros Hd Hs. unfold search_file_map. rewrite Hd, Hs. cbn [negb].
  rewrite add_md_dotless. cbn [obind].
  destruct (Str.contains "." s) eqn:Hdot; destruct s; try discriminate; now split.
Qed.

(** X16. Without directory URLs, for an occurrence whose target is no
    key of the target map and for which the file map gives a string, the
    engine goes on with the path the file map gave when that path has a
    dot anywhere in it, and with that path and [.md] after it when it
    has none; and when the handling of the occurrence returns, the
    occurrence is replaced by its link with the percent-encoded path
    from the directory of the document to that path as target. *)
Theorem suffix_without_directory_urls cwd self path m tm scanner link s out log :
  use_directory_urls self = false ->
  first_claim (scanners self) m = Some scanner ->
  extract scanner m = Some link ->
  Str.truthy (target link) = true ->
  tm !! target link = None ->
  search (file_map self) path (target link) = Some s ->
  do_replace cwd self path m tm = (Ok out, log) ->
  search_file_map self path (target link)
  = Ok (if Str.contains "." s then s else s +:+ ".md")
  /\ exists rel,
      PosixPath.relpath cwd (if Str.contains "." s then s else s +:+ ".md")
        (abs_from self path) = Some rel
      /\ out = render (set_target link (UrlParse.quote rel)) false
      /\ log = [].
Proof.
  intros Hd Hc He Ht Hm Hs Hret.
  destruct (search_file_map_without_directory_urls self path _ s Hd Hs) as [Hsearch Hne].
  split; [exact Hsearch|].
  destruct (relpath_of_nonempty cwd _ (abs_from self path) Hne) as [rel Hrel].
  exists rel. split; [exact Hrel|].
  rewrite (do_replace_resolved cwd self path m tm scanner link
             (if Str.contains "." s then s else s +:+ ".md") rel Hc He) in Hret;
    [|right; now repeat split|exact Hrel].
  injection Hret as <- <-. now split.
Qed.

Lemma suffix_without_directory_urls_witness :
  do_replace Site.cwd suffix_engine "a/b.md"
    (Site.wiki "[[target-page]]" "" "target-page" "" "") ∅
  = (Ok "[target-page](../c/target-page.md)", [])
  /\ search_file_map suffix_engine "a/b.md" "target-page"
     = Ok (if Str.contains "." "/site/docs/c/target-page"
           then "/site/docs/c/target-page" else "/site/docs/c/target-page" +:+ ".md")
  /\ exists rel,
      PosixPath.relpath Site.cwd
        (if Str.contains "." "/site/docs/c/target-page"
         then "/site/docs/c/target-page" else "/site/docs/c/target-page" +:+ ".md")
        (abs_from suffix_engine "a/b.md") = Some rel
      /\ "[target-page](../c/target-page.md)"
         = render (set_target
                     {| image := false; text := "target-page";
                        target := "target-page"; anchor := ""; title := "" |}
                     (UrlParse.quote rel)) false
      /\ @nil log_record = [].
Proof.
  split; [vm_compute; reflexivity|].
  apply (suffix_without_directory_urls Site.cwd suffix_engine "a/b.md"
           (Site.wiki "[[target-page]]" "" "target-page" "" "") ∅ Site.wikilinks
           {| image := false; text := "target-page"; target := "target-page";
              anchor := ""; title := "" |}
           "/site/docs/c/target-page");
    first [reflexivity | vm_compute; reflexivity].
Defined.

(** The example of the suffix: the page found as [docs/c/target-page]
    is linked as [../c/target-page.md]. *)
Example replace_without_directory_urls :
  replace Site.cwd suffix_engine "a/b.md" "[[target-page]]"
  = (Ok "[target-page](../c/target-page.md)", []).
Proof. vm_compute. reflexivity. Qed.
